(** * ws-chat-server: the client registry, the dispatcher and the broadcast
    fan-out of [server.js], embedded in Rocq.

    The server keeps one array of joined connections ([clients]), answers
    JSON requests by name ([wsFunctionsMap]) and fans every chat event out
    with [broadcast].  The embedding keeps the code's shape: the handlers
    are written in a small state-and-exception monad over the server state,
    [Array.prototype.forEach] is a loop over indices that re-reads the
    (possibly spliced) array at every step, and JavaScript values and JSON
    texts are two separate inductive types.

    Modelling conventions
    - a connection (the [ws] object) is an identifier; [Object.is] and
      [indexOf] on connections are equality of identifiers;
    - [client.nickname] is an entry of a finite map, absent meaning
      [undefined]; [client.readyState] and [Date.now()] are read from the
      state, which the handlers never write;
    - [client.send(text)] appends [(client, text)] to the log [sent] and
      does not throw; a JSON text is represented by its syntax tree [json];
    - [JSON.stringify] of the envelope of a chat message also walks the
      connection object stored under [client]; this is taken to succeed,
      and the copy it yields is deleted at once by the code;
    - the file runs in sloppy mode (CommonJS, no "use strict"), where
      assigning a property to a primitive does nothing;
    - numbers are integers (time stamps); a number in a value stands for
      the double of the code, which a copy through [JSON.stringify] and
      [JSON.parse] gives back as it is.  Reading a number from a text a
      client wrote ([JSON_value]) and writing its digits in a string
      ([ToString]) are those of the code for integers up to 2^53 in
      magnitude: statements that expose either carry [plain_json] or
      [safe_numbers] as a condition.  Console output is not modelled;
    - [isJSON] (package is-valid-json) and [JSON.parse] on raw input are
      parameters of the dispatcher. *)

From Stdlib Require Import ZArith String List Bool Lia.
From stdpp Require Import base option list gmap strings pretty.

Open Scope string_scope.
Open Scope list_scope.

(** ** JavaScript values and JSON texts *)

#[local] Unset Elimination Schemes.

Inductive value : Type :=
| VUndef
| VNull
| VBool (b : bool)
| VNum (n : Z)
| VStr (s : string)
| VArr (elems : list value)
| VObj (props : list (string * value)).

Inductive json : Type :=
| JNull
| JBool (b : bool)
| JNum (n : Z)
| JStr (s : string)
| JArr (elems : list json)
| JObj (props : list (string * json)).

#[local] Set Elimination Schemes.

(** [isSet]: the variable is neither [undefined] nor [null]. *)
Definition isSet (variable : value) : bool :=
  match variable with
  | VUndef | VNull => false
  | _ => true
  end.

(** Own properties of an object, in property order. *)
Fixpoint obj_get {A : Type} (k : string) (o : list (string * A)) : option A :=
  match o with
  | [] => None
  | (k', v) :: o' => if String.eqb k k' then Some v else obj_get k o'
  end.

Fixpoint obj_delete {A : Type} (k : string) (o : list (string * A)) : list (string * A) :=
  match o with
  | [] => []
  | (k', v) :: o' =>
      if String.eqb k k' then obj_delete k o' else (k', v) :: obj_delete k o'
  end.

(** [o[k] = v]: an existing property keeps its place, a new one goes last. *)
Fixpoint obj_set {A : Type} (k : string) (v : A) (o : list (string * A)) : list (string * A) :=
  match o with
  | [] => [(k, v)]
  | (k', v') :: o' =>
      if String.eqb k k' then (k, v) :: o' else (k', v') :: obj_set k v o'
  end.

(** [JSON.stringify]: [None] is the result [undefined].  A property whose
    value is [undefined] is left out, an [undefined] array element is
    written [null]. *)
Definition stringify_elems (f : value -> option json) (l : list value) : list json :=
  map (fun x => default JNull (f x)) l.

Definition stringify_props (f : value -> option json) (o : list (string * value))
  : list (string * json) :=
  omap (fun kv => match f (snd kv) with
                  | Some j => Some (fst kv, j)
                  | None => None
                  end) o.

Fixpoint JSON_stringify (v : value) : option json :=
  match v with
  | VUndef => None
  | VNull => Some JNull
  | VBool b => Some (JBool b)
  | VNum n => Some (JNum n)
  | VStr s => Some (JStr s)
  | VArr l => Some (JArr (stringify_elems JSON_stringify l))
  | VObj o => Some (JObj (stringify_props JSON_stringify o))
  end.

(** The value [JSON.parse] builds from the text of a tree.  On a text made
    by [JSON.stringify] this is the code's value.  On a text a client wrote
    it is so for the texts of [plain_json] below: the code rounds an integer
    beyond 2^53 to a double, keeps the last of two members of the same name,
    and moves members named by an array index to the front. *)
Fixpoint JSON_value (j : json) : value :=
  match j with
  | JNull => VNull
  | JBool b => VBool b
  | JNum n => VNum n
  | JStr s => VStr s
  | JArr l => VArr (map JSON_value l)
  | JObj o => VObj (map (fun kj => (fst kj, JSON_value (snd kj))) o)
  end.

Definition stringify_object (o : list (string * value)) : json :=
  JObj (stringify_props JSON_stringify o).

Definition parse_object (o : list (string * json)) : list (string * value) :=
  map (fun kj => (fst kj, JSON_value (snd kj))) o.

(** [JSON.parse(JSON.stringify(o))] on an object: the deep copy. *)
Definition JSON_copy (o : list (string * value)) : list (string * value) :=
  parse_object (stringify_props JSON_stringify o).

(** Conversion to text inside a template literal.  [None] is the TypeError
    of OrdinaryToPrimitive: a parsed object that carries an own (hence not
    callable) [toString] hides [Object.prototype.toString], and the inherited
    [valueOf] returns the object itself.  Arrays go through [join].  For a
    number the digits are written out; they are the code's for integers up
    to 2^53 in magnitude ([safe_numbers] below), past which the code writes
    the shortest digits of the double and, from 10^21, an exponent.  Whether
    the conversion throws does not depend on numbers. *)
Fixpoint ToString (v : value) : option string :=
  match v with
  | VUndef => Some "undefined"
  | VNull => Some "null"
  | VBool b => Some (if b then "true" else "false")
  | VNum n => Some (pretty n)
  | VStr s => Some s
  | VArr l =>
      (fix join (l : list value) : option string :=
         match l with
         | [] => Some ""
         | x :: t =>
             match (match x with VUndef | VNull => Some "" | _ => ToString x end) with
             | None => None
             | Some sx =>
                 match t with
                 | [] => Some sx
                 | _ :: _ =>
                     match join t with
                     | None => None
                     | Some st => Some (sx ++ "," ++ st)%string
                     end
                 end
             end
         end) l
  | VObj o =>
      match obj_get "toString" o with
      | Some _ => None
      | None => Some "[object Object]"
      end
  end.

(** ** Server state *)

Definition conn := nat.

Inductive ReadyState := CONNECTING | OPEN | CLOSING | CLOSED.

(** [client.readyState === WebSocket.OPEN] *)
Definition is_open (r : ReadyState) : bool :=
  match r with
  | OPEN => true
  | _ => false
  end.

Record state := State {
  clients : list conn;              (* const clients = [] *)
  nickname : gmap conn value;       (* the nickname property of each ws object *)
  readyState : conn -> ReadyState;  (* kept by the transport *)
  clock : Z;                        (* what Date.now() returns *)
  sent : list (conn * json)         (* every client.send, oldest first *)
}.

Definition with_clients (l : list conn) (s : state) : state :=
  State l (nickname s) (readyState s) (clock s) (sent s).

Definition with_nickname (m : gmap conn value) (s : state) : state :=
  State (clients s) m (readyState s) (clock s) (sent s).

Definition with_sent (l : list (conn * json)) (s : state) : state :=
  State (clients s) (nickname s) (readyState s) (clock s) l.

(** ** Handlers run in a state monad with exceptions *)

Inductive exn := TypeError | SyntaxError.

Inductive outcome (A : Type) : Type :=
| Normal (a : A)
| Throw (e : exn).
Arguments Normal {A} a.
Arguments Throw {A} e.

Definition M (A : Type) : Type := state -> state * outcome A.

#[global] Instance M_ret : MRet M := fun A a s => (s, Normal a).

#[global] Instance M_bind : MBind M := fun A B f m s =>
  match m s with
  | (s', Normal a) => f a s'
  | (s', Throw e) => (s', Throw e)
  end.

Definition lift {A : Type} (o : outcome A) : M A := fun s => (s, o).

Definition get_clients : M (list conn) := fun s => (s, Normal (clients s)).

(** [client.nickname], [undefined] until it is assigned *)
Definition client_nickname (s : state) (client : conn) : value :=
  default VUndef (nickname s !! client).

Definition get_nickname (client : conn) : M value :=
  fun s => (s, Normal (client_nickname s client)).

Definition set_nickname (client : conn) (v : value) : M unit :=
  fun s => (with_nickname (<[client := v]> (nickname s)) s, Normal tt).

Definition get_readyState (client : conn) : M ReadyState :=
  fun s => (s, Normal (readyState s client)).

Definition Date_now : M Z := fun s => (s, Normal (clock s)).

(** [client.send(text)] *)
Definition send (client : conn) (text : json) : M unit :=
  fun s => (with_sent (sent s ++ [(client, text)]) s, Normal tt).

(** [clients.push(client)] *)
Definition push (client : conn) : M unit :=
  fun s => (with_clients (clients s ++ [client]) s, Normal tt).

(** [clients.splice(index, 1)] *)
Definition splice (index : nat) : M unit :=
  fun s => (with_clients (delete index (clients s)) s, Normal tt).

(** [clients.indexOf(client)], [None] for -1 *)
Fixpoint indexOf (client : conn) (l : list conn) : option nat :=
  match l with
  | [] => None
  | c :: l' => if Nat.eqb c client then Some 0 else S <$> indexOf client l'
  end.

(** Reading a property [data.k] of a parsed value: a TypeError on [null]
    and [undefined]; a primitive or an array has none of the names the
    handlers read (action, nickname, message). *)
Definition prop (data : value) (k : string) : outcome value :=
  match data with
  | VUndef | VNull => Throw TypeError
  | VObj o => Normal (default VUndef (obj_get k o))
  | _ => Normal VUndef
  end.

(** [clients.forEach(callback)]: the length is read once, index [k] is
    visited only if the array still has it, and the element passed is the
    one found there at that moment. *)
Fixpoint forEach_from (n k : nat) (callback : conn -> nat -> M unit) (s : state)
  : state * outcome unit :=
  match n with
  | 0 => (s, Normal tt)
  | S n' =>
      match clients s !! k with
      | None => forEach_from n' (S k) callback s
      | Some client =>
          match callback client k s with
          | (s', Normal _) => forEach_from n' (S k) callback s'
          | (s', Throw e) => (s', Throw e)
          end
      end
  end.

Definition clients_forEach (callback : conn -> nat -> M unit) : M unit :=
  fun s => forEach_from (length (clients s)) 0 callback s.

(** ** Send error back to client *)

Definition error_reply (error : string) : json :=
  stringify_object [("error", VStr error)].

Definition incomingMessageError (client : conn) (error : string) : M unit :=
  send client (error_reply error).

(** ** Broadcast to all clients *)

(** The object handed to [broadcast]: the optional [client] property is the
    only one that holds a connection; every other property is data.  The
    copy of [client] made by the deep copy is deleted before it is looked
    at, so it is not represented. *)
Record envelope := Envelope {
  env_client : option conn;
  env_props : list (string * value)
}.

(** [data.client && Object.is(client, data.client)] *)
Definition triggered_by (data : envelope) (client : conn) : bool :=
  match env_client data with
  | Some origin => Nat.eqb client origin
  | None => false
  end.

(** [dataInstance.data.me = true]: a TypeError when [dataInstance.data] is
    missing or [null]; without visible effect (sloppy mode) on a primitive
    or an array, whose extra property [JSON.stringify] does not write. *)
Definition set_data_me (dataInstance : list (string * value))
  : outcome (list (string * value)) :=
  match obj_get "data" dataInstance with
  | None | Some VUndef | Some VNull => Throw TypeError
  | Some (VObj d) =>
      Normal (obj_set "data" (VObj (obj_set "me" (VBool true) d)) dataInstance)
  | Some _ => Normal dataInstance
  end.

(** The copy made for one client, up to the readyState test. *)
Definition targeted_copy (data : envelope) (client : conn)
  : outcome (list (string * value)) :=
  let dataInstance := JSON_copy (env_props data) in
  let dataInstance := obj_delete "client" dataInstance in
  if triggered_by data client then set_data_me dataInstance
  else Normal dataInstance.

Definition broadcast_callback (data : envelope) (client : conn) (index : nat) : M unit :=
  dataInstance ← lift (targeted_copy data client);
  r ← get_readyState client;
  if is_open r then send client (stringify_object dataInstance)
  else splice index.

Definition broadcast (data : envelope) : M unit :=
  cl ← get_clients;
  if (0 <? length cl)%nat then clients_forEach (broadcast_callback data)
  else mret tt.

(** ** Server request functions *)

Definition joinChat (client : conn) (data : value) : M unit :=
  cl ← get_clients;
  match indexOf client cl with
  | Some _ => incomingMessageError client "Client already joined"
  | None =>
      nick ← lift (prop data "nickname");
      if negb (isSet nick) then incomingMessageError client "nickname is missing"
      else
        broadcast (Envelope None [("action", VStr "clientJoin"); ("nickname", nick)]);;
        set_nickname client nick;;
        push client;;
        match ToString nick with
        | None => lift (Throw TypeError)
        | Some text =>
            send client (stringify_object
              [("action", VStr "welcomeClient");
               ("nickname", nick);
               ("message", VStr ("Welcome " ++ text ++ "!")%string)])
        end
  end.

Definition leaveChat (client : conn) : M unit :=
  cl ← get_clients;
  if (0 <? length cl)%nat then
    match indexOf client cl with
    | Some index =>
        nick ← get_nickname client;
        splice index;;
        broadcast (Envelope None [("action", VStr "clientLeave"); ("nickname", nick)])
    | None => mret tt
    end
  else mret tt.

Definition sendChat (client : conn) (data : value) : M unit :=
  message ← lift (prop data "message");
  if negb (isSet message) then incomingMessageError client "message is missing"
  else
    now ← Date_now;
    name ← get_nickname client;
    broadcast (Envelope (Some client)
      [("action", VStr "incomingChat");
       ("data", VObj [("time", VNum now); ("name", name); ("content", message)])]).

Definition changeNickname (client : conn) (data : value) : M unit :=
  nick ← lift (prop data "nickname");
  if negb (isSet nick) then incomingMessageError client "nickname is missing"
  else
    oldNickname ← get_nickname client;
    set_nickname client nick;;
    broadcast (Envelope None
      [("action", VStr "nicknameChange");
       ("oldNickname", oldNickname);
       ("newNickname", nick)]).

(** ** Dispatch *)

Definition handler := conn -> value -> M unit.

(** [wsFunctions], in the order the properties are assigned; [init] copies
    its entries into [wsFunctionsMap]. *)
Definition wsFunctions : list (string * handler) :=
  [("joinChat", joinChat);
   ("leaveChat", fun client _ => leaveChat client);
   ("sendChat", sendChat);
   ("changeNickname", changeNickname)].

(** [wsFunctionsMap.get(action)]: the keys are strings, so only a string
    can be found; [None] is [wsFunctionsMap.has(action) === false]. *)
Definition wsFunctionsMap_get (action : value) : option handler :=
  match action with
  | VStr name => obj_get name wsFunctions
  | _ => None
  end.

Definition incomingMessage (client : conn) (data : value) : M unit :=
  action ← lift (prop data "action");
  if negb (isSet action) then incomingMessageError client "action is missing"
  else
    match wsFunctionsMap_get action with
    | None => incomingMessageError client "No such action"
    | Some f => f client data
    end.

Definition wsClose (client : conn) : M unit := leaveChat client.

Record request := Request { content : string; client_of : conn }.

Section Dispatcher.

(** The two library calls made on the raw text. *)
Variable isJSON : string -> bool.
Variable JSON_parse : string -> outcome value.

Definition wsMessage (message : request) : M unit :=
  if isJSON (content message) then
    data ← lift (JSON_parse (content message));
    incomingMessage (client_of message) data
  else incomingMessageError (client_of message) "Invalid JSON format".

(** The events the transport delivers; between two of them it may change
    the readyState of any connection and the clock. *)
Inductive event :=
| EvMessage (client : conn) (raw : string)
| EvClose (client : conn)
| EvTransport (rs : conn -> ReadyState) (now : Z).

Definition handle (ev : event) (s : state) : state :=
  match ev with
  | EvMessage client raw => fst (wsMessage (Request raw client) s)
  | EvClose client => fst (wsClose client s)
  | EvTransport rs now => State (clients s) (nickname s) rs now (sent s)
  end.

End Dispatcher.

Definition initial (rs : conn -> ReadyState) (now : Z) : state :=
  State [] ∅ rs now [].

(** ** What one pass of [forEach] over [clients] does

    Two functions that describe the loop of [broadcast] without indices;
    [forEach_from_broadcast] below proves that the loop computes them.
    [kept] is the array left by the pass and [reached] the clients it sent
    to, both by recursion on the part of the array not yet visited: after a
    removal the next element moves into the slot just visited and is
    stepped over. *)

Fixpoint kept (rs : conn -> ReadyState) (l : list conn) : list conn :=
  match l with
  | [] => []
  | c :: t =>
      if is_open (rs c) then c :: kept rs t
      else match t with
           | [] => []
           | d :: t' => d :: kept rs t'
           end
  end.

Fixpoint reached (rs : conn -> ReadyState) (l : list conn) : list conn :=
  match l with
  | [] => []
  | c :: t =>
      if is_open (rs c) then c :: reached rs t
      else match t with
           | [] => []
           | d :: t' => reached rs t'
           end
  end.

(** The state after a pass that left the array [l] and sent [out]. *)
Definition after_pass (s : state) (l : list conn) (out : list (conn * json)) : state :=
  State l (nickname s) (readyState s) (clock s) (sent s ++ out).

(** What a pass sends to [c] when the copy made for it is [instance c]. *)
Definition wire (instance : conn -> list (string * value)) (c : conn) : conn * json :=
  (c, stringify_object (instance c)).

(** ** The messages of the protocol, as the handlers build them *)

Definition join_envelope (nick : value) : envelope :=
  Envelope None [("action", VStr "clientJoin"); ("nickname", nick)].

Definition leave_envelope (nick : value) : envelope :=
  Envelope None [("action", VStr "clientLeave"); ("nickname", nick)].

Definition rename_envelope (oldNickname nick : value) : envelope :=
  Envelope None
    [("action", VStr "nicknameChange");
     ("oldNickname", oldNickname);
     ("newNickname", nick)].

Definition chat_envelope (client : conn) (now : Z) (name message : value) : envelope :=
  Envelope (Some client)
    [("action", VStr "incomingChat");
     ("data", VObj [("time", VNum now); ("name", name); ("content", message)])].

(** The text sent for an envelope that names no client. *)
Definition plain_text (data : envelope) : json := stringify_object (env_props data).

Definition welcome_text (nick : value) (text : string) : json :=
  stringify_object
    [("action", VStr "welcomeClient");
     ("nickname", nick);
     ("message", VStr ("Welcome " ++ text ++ "!")%string)].

(** The text of a chat copy; [me] tells whether it carries the flag. *)
Definition chat_text (now : Z) (name message : value) (me : bool) : json :=
  stringify_object
    [("action", VStr "incomingChat");
     ("data", VObj ([("time", VNum now); ("name", name); ("content", message)]
                    ++ if me then [("me", VBool true)] else []))].

Definition chat_instance (client : conn) (now : Z) (name message : value) (r : conn)
  : list (string * value) :=
  match targeted_copy (chat_envelope client now name message) r with
  | Normal di => di
  | Throw _ => []
  end.

(** A member of a JSON object text. *)
Definition json_get (k : string) (j : json) : option json :=
  match j with
  | JObj o => obj_get k o
  | _ => None
  end.

(** All the texts sent to [c], oldest first. *)
Fixpoint inbox (c : conn) (out : list (conn * json)) : list json :=
  match out with
  | [] => []
  | (r, j) :: out' => if Nat.eqb r c then j :: inbox c out' else inbox c out'
  end.

Definition all_open (s : state) : Prop :=
  Forall (fun c => is_open (readyState s c) = true) (clients s).

(** The outcome of a handler whose only effect is one error reply. *)
Definition replied (s : state) (client : conn) (error : string) : state * outcome unit :=
  (with_sent (sent s ++ [(client, error_reply error)]) s, Normal tt).

(** ** Sample registries and requests

    Connection 1 is open and every other connection is closed.  The closed
    member comes first in [stale_first] and [stale_pair], last in
    [stale_last], and is alone in [stale_only]. *)

Definition only_1_open (c : conn) : ReadyState :=
  match c with
  | 1 => OPEN
  | _ => CLOSED
  end.

Definition stale_first : state := State [0; 1] ∅ only_1_open 0 [].

Definition stale_pair : state := State [0; 2] ∅ only_1_open 0 [].

Definition stale_last : state := State [1; 0] ∅ only_1_open 0 [].

Definition stale_only : state := State [0] ∅ only_1_open 0 [].

Definition bob_joins : value := VObj [("nickname", VStr "Bob")].

Definition says_hi : value := VObj [("message", VStr "hi")].

(** ** The operations that touch the registry *)

Inductive operation :=
| OpJoin (client : conn) (data : value)
| OpLeave (client : conn)
| OpSend (client : conn) (data : value)
| OpRename (client : conn) (data : value)
| OpBroadcast (data : envelope)
| OpClose (client : conn).

Definition perform (op : operation) : M unit :=
  match op with
  | OpJoin client data => joinChat client data
  | OpLeave client => leaveChat client
  | OpSend client data => sendChat client data
  | OpRename client data => changeNickname client data
  | OpBroadcast data => broadcast data
  | OpClose client => wsClose client
  end.

(** [op] is a [joinChat] of [c] that passes both checks. *)
Definition joins (op : operation) (s : state) (c : conn) : Prop :=
  match op with
  | OpJoin client data =>
      c = client /\ (client ∉ clients s)
      /\ exists nick, prop data "nickname" = Normal nick /\ isSet nick = true
  | _ => False
  end.

(** [op] is a leave or a close of [c]. *)
Definition leaves (op : operation) (c : conn) : Prop :=
  match op with
  | OpLeave client | OpClose client => c = client
  | _ => False
  end.

(** [l'] is [l] less some clients that are not open. *)
Definition evicts (rs : conn -> ReadyState) (l l' : list conn) : Prop :=
  l' `sublist_of` l /\ forall c, c ∈ l -> is_open (rs c) = true -> c ∈ l'.

(** The names under which handlers are registered. *)
Definition action_names : list string :=
  ["joinChat"; "leaveChat"; "sendChat"; "changeNickname"].

(** A dispatcher for the examples: the text "{}" parses to the empty
    object, "bogus" to a request for the action of that name, and nothing
    else is JSON. *)
Definition sample_isJSON (raw : string) : bool :=
  String.eqb raw "{}" || String.eqb raw "bogus".

Definition sample_parse (raw : string) : outcome value :=
  if String.eqb raw "{}" then Normal (VObj [])
  else if String.eqb raw "bogus" then Normal (VObj [("action", VStr "bogusAction")])
  else Throw SyntaxError.

(** ** Configuration *)

(** The values that [||] does not step over. *)
Definition truthy (v : value) : bool :=
  match v with
  | VUndef | VNull => false
  | VBool b => b
  | VNum n => negb (Z.eqb n 0)
  | VStr s => negb (String.eqb s "")
  | VArr _ | VObj _ => true
  end.

(** [let config = { path: './server.config.json' }] *)
Definition default_config : value := VObj [("path", VStr "./server.config.json")].

Section Config.

Variable isJSON : string -> bool.
Variable JSON_parse : string -> outcome value.

(** The configuration after the import block.  [file] is what
    [readFileSync(config.path, 'utf8')] returns, [None] when [existsSync]
    says that there is no such file.  A file that is not JSON is reported
    on the console and the configuration stays as it was. *)
Definition load_config (file : option string) : outcome value :=
  match file with
  | Some configImport =>
      if isJSON configImport then JSON_parse configImport
      else Normal default_config
  | None => Normal default_config
  end.

(** [const wsPort = config.wsPort || 80] *)
Definition wsPort (file : option string) : outcome value :=
  match load_config file with
  | Normal config =>
      match prop config "wsPort" with
      | Normal port => Normal (if truthy port then port else VNum 80)
      | Throw e => Throw e
      end
  | Throw e => Throw e
  end.

End Config.

(** ** [init]: the request functions copied into the Map

    [Object.entries(wsFunctions).forEach(func => wsFunctionsMap.set(func[0],
    func[1]))], starting from the empty Map. *)
Definition wsFunctionsMap : gmap string handler :=
  foldl (fun m func => <[fst func := snd func]> m) ∅ wsFunctions.

(** ** Vocabulary for the properties of a pass and of the operations *)

(** [n] broadcasts of the same envelope in a row. *)
Fixpoint broadcasts (n : nat) (data : envelope) (s : state) : state :=
  match n with
  | 0 => s
  | S n' => broadcasts n' data (fst (broadcast data s))
  end.

(** The members whose channel is open, in registry order. *)
Definition open_members (rs : conn -> ReadyState) (l : list conn) : list conn :=
  List.filter (fun c => is_open (rs c)) l.

(** The connection a handler acts for; a bare [broadcast] has none. *)
Definition actor (op : operation) : option conn :=
  match op with
  | OpJoin client _ | OpLeave client | OpSend client _
  | OpRename client _ | OpClose client => Some client
  | OpBroadcast _ => None
  end.

(** The operations that assign a nickname. *)
Definition names_itself (op : operation) (c : conn) : Prop :=
  match op with
  | OpJoin client _ | OpRename client _ => c = client
  | _ => False
  end.

(** Every member carries a nickname that is neither undefined nor null. *)
Definition members_named (s : state) : Prop :=
  forall c, c ∈ clients s -> isSet (client_nickname s c) = true.

(** A dispatcher that takes every text for JSON and parses it to [null]. *)
Definition null_isJSON (raw : string) : bool := true.

Definition null_parse (raw : string) : outcome value := Normal VNull.

Definition two_open : state := State [0; 1] ∅ (fun _ => OPEN) 7 [].

(** The copy [broadcast] makes of an envelope that names no client. *)
Definition plain_instance (data : envelope) (c : conn) : list (string * value) :=
  obj_delete "client" (JSON_copy (env_props data)).

(** ** The envelope of a chat as objects in a store

    Above, the copy that [broadcast] makes is a fresh value by
    construction.  To state that the copy shares nothing with the original
    the objects the loop touches are put in a store here: the envelope
    built by [sendChat], its [data] member, and the objects that
    [JSON.parse] builds for the copy.  [broadcast] reaches objects at two
    levels only ([dataInstance] and [dataInstance.data]); these are objects
    of the store, and what lies deeper in them is never written by the file
    and stays a value. *)

Definition loc := nat.

Inductive slot :=
| Data (v : value)   (* a value that no statement of the file writes into *)
| Ref (l : loc)      (* an object of the store *)
| Conn (c : conn).   (* a connection *)

Definition object := list (string * slot).

Definition store := list object.

(** A new object takes the next free place. *)
Definition alloc (o : object) (h : store) : loc * store := (length h, h ++ [o]).

(** The text [JSON.stringify] writes for a connection object: that of an
    object.  Its members belong to the transport and are not modelled; the
    one copy the code makes of it is deleted unread. *)
Definition connection_text : json := JObj [].

(** The members of an object text, given how a member is printed: a member
    printed as [undefined] is left out. *)
Fixpoint stringify_members (f : slot -> outcome (option json)) (o : object)
  : outcome (list (string * json)) :=
  match o with
  | [] => Normal []
  | (k, x) :: o' =>
      match f x with
      | Throw e => Throw e
      | Normal jx =>
          match stringify_members f o' with
          | Throw e => Throw e
          | Normal js =>
              Normal (match jx with
                      | Some j => (k, j) :: js
                      | None => js
                      end)
          end
      end
  end.

(** [JSON.stringify] on the store.  Every object entered uses up one unit
    of [fuel]; started with as many units as the store has objects it runs
    out exactly on a circular structure, which is a TypeError. *)
Fixpoint store_stringify (fuel : nat) (h : store) (x : slot) : outcome (option json) :=
  match x with
  | Data v => Normal (JSON_stringify v)
  | Conn _ => Normal (Some connection_text)
  | Ref l =>
      match fuel with
      | 0 => Throw TypeError
      | S fuel' =>
          match h !! l with
          | None => Throw TypeError
          | Some o =>
              match stringify_members (store_stringify fuel' h) o with
              | Throw e => Throw e
              | Normal js => Normal (Some (JObj js))
              end
          end
      end
  end.

Definition JSON_stringify_store (h : store) (x : slot) : outcome (option json) :=
  store_stringify (length h) h x.

(** An object all of whose members are values. *)
Definition data_object (o : list (string * value)) : object :=
  map (fun kv => (fst kv, Data (snd kv))) o.

(** [JSON.parse] on the store: a new object for the text of an object and
    for each of its members that is an object, values below. *)
Fixpoint parse_members (o : list (string * json)) (h : store) : object * store :=
  match o with
  | [] => ([], h)
  | (k, j) :: o' =>
      let (x, h1) :=
        match j with
        | JObj m =>
            let (l, h1) := alloc (data_object (parse_object m)) h in
            (Ref l, h1)
        | _ => (Data (JSON_value j), h)
        end in
      let (rest, h2) := parse_members o' h1 in
      ((k, x) :: rest, h2)
  end.

Definition JSON_parse_store (j : json) (h : store) : slot * store :=
  match j with
  | JObj o =>
      let (members, h1) := parse_members o h in
      let (l, h2) := alloc members h1 in
      (Ref l, h2)
  | _ => (Data (JSON_value j), h)
  end.

(** [data.client && Object.is(client, data.client)], read from the store as
    it is when the test is made. *)
Definition store_triggered_by (h : store) (data : loc) (client : conn) : bool :=
  match h !! data with
  | Some o =>
      match obj_get "client" o with
      | Some (Conn origin) => Nat.eqb client origin
      | _ => false
      end
  | None => false
  end.

(** [dataInstance.data.me = true] *)
Definition store_set_data_me (h : store) (dataInstance : loc) : outcome store :=
  match h !! dataInstance with
  | None => Throw TypeError
  | Some o =>
      match obj_get "data" o with
      | None | Some (Data VUndef) | Some (Data VNull) => Throw TypeError
      | Some (Ref l) =>
          match h !! l with
          | Some d => Normal (<[l := obj_set "me" (Data (VBool true)) d]> h)
          | None => Throw TypeError
          end
      | Some (Data (VObj d)) =>
          Normal (<[dataInstance :=
                     obj_set "data" (Data (VObj (obj_set "me" (VBool true) d))) o]> h)
      | Some _ => Normal h
      end
  end.

(** The callback of [broadcast], with [data] an object of the store. *)
Definition broadcast_callback_store (data : loc) (client : conn) (index : nat)
    (hs : store * state) : (store * state) * outcome unit :=
  let (h, s) := hs in
  (* let dataInstance = JSON.parse(JSON.stringify(data)) *)
  match JSON_stringify_store h (Ref data) with
  | Throw e => ((h, s), Throw e)
  | Normal None => ((h, s), Throw SyntaxError)
  | Normal (Some text) =>
      match JSON_parse_store text h with
      | (Ref dataInstance, h1) =>
          (* delete dataInstance.client *)
          let h2 := alter (obj_delete "client") dataInstance h1 in
          match (if store_triggered_by h2 data client
                 then store_set_data_me h2 dataInstance
                 else Normal h2) with
          | Throw e => ((h2, s), Throw e)
          | Normal h3 =>
              if is_open (readyState s client) then
                (* client.send(JSON.stringify(dataInstance)) *)
                match JSON_stringify_store h3 (Ref dataInstance) with
                | Normal (Some out) =>
                    ((h3, with_sent (sent s ++ [(client, out)]) s), Normal tt)
                | Normal None => ((h3, s), Throw TypeError)
                | Throw e => ((h3, s), Throw e)
                end
              else
                (* clients.splice(index, 1) *)
                ((h3, with_clients (delete index (clients s)) s), Normal tt)
          end
      | (_, h1) => ((h1, s), Throw TypeError)
      end
  end.

Fixpoint forEach_store (n k : nat)
    (callback : conn -> nat -> store * state -> (store * state) * outcome unit)
    (hs : store * state) : (store * state) * outcome unit :=
  match n with
  | 0 => (hs, Normal tt)
  | S n' =>
      match clients (snd hs) !! k with
      | None => forEach_store n' (S k) callback hs
      | Some client =>
          match callback client k hs with
          | (hs', Normal _) => forEach_store n' (S k) callback hs'
          | (hs', Throw e) => (hs', Throw e)
          end
      end
  end.

Definition broadcast_store (data : loc) (hs : store * state)
  : (store * state) * outcome unit :=
  if (0 <? length (clients (snd hs)))%nat
  then forEach_store (length (clients (snd hs))) 0 (broadcast_callback_store data) hs
  else (hs, Normal tt).

(** The two objects of the literal in [sendChat]. *)
Definition chat_data_object (now : Z) (name message : value) : object :=
  data_object [("time", VNum now); ("name", name); ("content", message)].

Definition chat_object (client : conn) (data : loc) : object :=
  [("client", Conn client); ("action", Data (VStr "incomingChat")); ("data", Ref data)].

(** [sendChat], building its envelope in the store. *)
Definition sendChat_store (client : conn) (data : value) (hs : store * state)
  : (store * state) * outcome unit :=
  let (h, s) := hs in
  match prop data "message" with
  | Throw e => ((h, s), Throw e)
  | Normal message =>
      if negb (isSet message) then
        ((h, fst (incomingMessageError client "message is missing" s)), Normal tt)
      else
        let (inner, h1) :=
          alloc (chat_data_object (clock s) (client_nickname s client) message) h in
        let (outer, h2) := alloc (chat_object client inner) h1 in
        broadcast_store outer (h2, s)
  end.

(** ** Values whose printed form the model has *)

(** The welcome, for the string the template literal of [joinChat] made. *)
Definition welcome_reply (nick : value) (greeting : string) : json :=
  stringify_object
    [("action", VStr "welcomeClient"); ("nickname", nick); ("message", VStr greeting)].

(** The values whose text in a string is the one [ToString] gives: every
    number that is printed is an integer of magnitude at most 2^53.  The
    numbers inside an object are not printed. *)
Fixpoint safe_numbers (v : value) : bool :=
  match v with
  | VNum n => (Z.abs n <=? 2 ^ 53)%Z
  | VArr l => forallb safe_numbers l
  | _ => true
  end.

Fixpoint all_digits (k : string) : bool :=
  match k with
  | EmptyString => true
  | String a k' =>
      (Nat.leb 48 (Ascii.nat_of_ascii a) && Nat.leb (Ascii.nat_of_ascii a) 57)
      && all_digits k'
  end.

Fixpoint distinct_keys (ks : list string) : bool :=
  match ks with
  | [] => true
  | k :: ks' => negb (existsb (String.eqb k) ks') && distinct_keys ks'
  end.

(** The JSON texts that [JSON.parse] reads exactly as [JSON_value] does:
    numbers exact as doubles, and objects whose keys are distinct and not
    written in digits only (such keys would be moved to the front). *)
Fixpoint plain_json (j : json) : bool :=
  match j with
  | JNum n => (Z.abs n <=? 2 ^ 53)%Z
  | JArr l => forallb plain_json l
  | JObj o =>
      distinct_keys (map fst o)
      && forallb (fun kj => negb (all_digits (fst kj)) && plain_json (snd kj)) o
  | _ => true
  end.

(** * Properties *)

Example ToString_ex :
  ToString (VArr [VNum 1; VNull; VStr "a"]) = Some "1,,a"
  /\ ToString (VObj [("toString", VNum 1)]) = None.
Proof. split; vm_compute; reflexivity. Qed.

(** ** JSON texts survive parsing and printing *)

Lemma json_nested_ind (P : json -> Prop) :
  P JNull ->
  (forall b, P (JBool b)) ->
  (forall n, P (JNum n)) ->
  (forall s, P (JStr s)) ->
  (forall l, Forall P l -> P (JArr l)) ->
  (forall o, Forall (fun kj => P (snd kj)) o -> P (JObj o)) ->
  forall j, P j.
Proof.
  intros HN HB HZ HS HA HO.
  fix IH 1. intros [ | b | n | s | l | o ].
  - exact HN.
  - apply HB.
  - apply HZ.
  - apply HS.
  - apply HA. induction l as [ | x l IHl ]; constructor; [ apply IH | exact IHl ].
  - apply HO. induction o as [ | [k x] o IHo ]; constructor; [ apply IH | exact IHo ].
Qed.

Lemma JSON_stringify_value (j : json) : JSON_stringify (JSON_value j) = Some j.
Proof.
  induction j as [ | b | n | s | l IHl | o IHo ] using json_nested_ind; simpl; try reflexivity.
  - f_equal. f_equal. unfold stringify_elems.
    induction IHl as [ | x l Hx _ IH ]; simpl; [ reflexivity | ].
    rewrite Hx. simpl. f_equal. exact IH.
  - f_equal. f_equal. unfold stringify_props.
    induction IHo as [ | [k x] o Hx _ IH ]; simpl; [ reflexivity | ].
    simpl in Hx. rewrite Hx. simpl. f_equal. exact IH.
Qed.

Lemma stringify_parse_object (o : list (string * json)) :
  stringify_props JSON_stringify (parse_object o) = o.
Proof.
  induction o as [ | [k x] o IH ]; simpl; [ reflexivity | ].
  rewrite JSON_stringify_value. simpl. f_equal. exact IH.
Qed.

Lemma JSON_stringify_isSet (v : value) :
  isSet v = true -> exists j, JSON_stringify v = Some j.
Proof. destruct v; simpl; intros H; try discriminate; eauto. Qed.

Lemma JSON_stringify_None (v : value) : JSON_stringify v = None <-> v = VUndef.
Proof. destruct v; simpl; split; intros H; congruence. Qed.

(** ** One pass of [forEach] over [clients] *)

Lemma list_pair_ind {A : Type} (P : list A -> Prop) :
  P [] ->
  (forall x, P [x]) ->
  (forall x y l, P l -> P (y :: l) -> P (x :: y :: l)) ->
  forall l, P l.
Proof.
  intros H0 H1 H2 l.
  assert (P l /\ forall x, P (x :: l)) as [H _]; [ | exact H ].
  induction l as [ | y l [IHl IHc] ]; split; auto.
Qed.

Lemma kept_sublist rs l : kept rs l `sublist_of` l.
Proof.
  induction l as [ | x | x y l IH1 IH2 ] using list_pair_ind; simpl.
  - constructor.
  - destruct (is_open (rs x)); [ reflexivity | apply sublist_nil_l ].
  - destruct (is_open (rs x)).
    + apply sublist_skip. exact IH2.
    + apply sublist_cons. apply sublist_skip. exact IH1.
Qed.

Lemma reached_sublist rs l : reached rs l `sublist_of` l.
Proof.
  induction l as [ | x | x y l IH1 IH2 ] using list_pair_ind; simpl.
  - constructor.
  - destruct (is_open (rs x)); [ reflexivity | apply sublist_nil_l ].
  - destruct (is_open (rs x)).
    + apply sublist_skip. exact IH2.
    + apply sublist_cons. apply sublist_cons. exact IH1.
Qed.

Lemma reached_open rs l : Forall (fun c => is_open (rs c) = true) (reached rs l).
Proof.
  induction l as [ | x | x y l IH1 IH2 ] using list_pair_ind; simpl.
  - constructor.
  - destruct (is_open (rs x)) eqn:E; repeat constructor. exact E.
  - destruct (is_open (rs x)) eqn:E; [ constructor; assumption | exact IH1 ].
Qed.

Lemma kept_all_open rs l :
  Forall (fun c => is_open (rs c) = true) l -> kept rs l = l.
Proof.
  induction 1 as [ | x l Hx _ IH ]; simpl; [ reflexivity | ].
  rewrite Hx, IH. reflexivity.
Qed.

Lemma reached_all_open rs l :
  Forall (fun c => is_open (rs c) = true) l -> reached rs l = l.
Proof.
  induction 1 as [ | x l Hx _ IH ]; simpl; [ reflexivity | ].
  rewrite Hx, IH. reflexivity.
Qed.

(** A pass removes closed clients only. *)
Lemma kept_open_elem rs l c :
  c ∈ l -> is_open (rs c) = true -> c ∈ kept rs l.
Proof.
  induction l as [ | x | x y l IH1 IH2 ] using list_pair_ind; simpl; intros Hin Hc.
  - exact Hin.
  - apply list_elem_of_singleton in Hin. subst x. rewrite Hc. constructor.
  - destruct (is_open (rs x)) eqn:E.
    + apply elem_of_cons in Hin as [-> | Hin]; [ constructor | ].
      apply elem_of_cons. right. apply IH2; assumption.
    + apply elem_of_cons in Hin as [-> | Hin]; [ congruence | ].
      apply elem_of_cons in Hin as [-> | Hin]; [ constructor | ].
      apply elem_of_cons. right. apply IH1; assumption.
Qed.

Lemma kept_elem rs l c : c ∈ kept rs l -> c ∈ l.
Proof. intros H. eapply elem_of_sublist; [ exact H | apply kept_sublist ]. Qed.

Lemma reached_elem rs l c : c ∈ reached rs l -> c ∈ l /\ is_open (rs c) = true.
Proof.
  intros H. split.
  - eapply elem_of_sublist; [ exact H | apply reached_sublist ].
  - pose proof (reached_open rs l) as Ho. rewrite Forall_forall in Ho. apply Ho.
    exact H.
Qed.

Lemma kept_NoDup rs l : NoDup l -> NoDup (kept rs l).
Proof. intros H. eapply sublist_NoDup; [ exact H | apply kept_sublist ]. Qed.

Lemma reached_NoDup rs l : NoDup l -> NoDup (reached rs l).
Proof. intros H. eapply sublist_NoDup; [ exact H | apply reached_sublist ]. Qed.

(** ** The loop of [broadcast] computes [kept] and [reached] *)

Ltac run :=
  unfold mbind, M_bind, mret, M_ret, lift, get_clients, get_nickname,
    set_nickname, get_readyState, Date_now, send, push, splice,
    incomingMessageError; simpl.

Lemma state_eta (s : state) :
  State (clients s) (nickname s) (readyState s) (clock s) (sent s) = s.
Proof. destruct s; reflexivity. Qed.

Section Pass.

Variable data : envelope.
Variable instance : conn -> list (string * value).
Hypothesis copy_ok : forall c, targeted_copy data c = Normal (instance c).

Lemma forEach_from_broadcast (n : nat) :
  forall (k : nat) (s : state),
    length (clients s) <= k + n ->
    forEach_from n k (broadcast_callback data) s =
      (after_pass s
         (take k (clients s) ++ kept (readyState s) (drop k (clients s)))
         (map (wire instance) (reached (readyState s) (drop k (clients s)))),
       Normal tt).
Proof.
  induction n as [ | n IH ]; intros k s Hlen; simpl.
  - rewrite (drop_ge (clients s) k) by lia. rewrite (take_ge (clients s) k) by lia.
    simpl. unfold after_pass. rewrite !app_nil_r. rewrite state_eta. reflexivity.
  - destruct (clients s !! k) as [c | ] eqn:Hk.
    + pose proof (lookup_lt_Some _ _ _ Hk) as Hlt.
      rewrite (drop_S _ _ _ Hk). simpl.
      unfold broadcast_callback at 1. run. rewrite copy_ok.
      destruct (is_open (readyState s c)) eqn:Ho; simpl.
      * rewrite IH by (simpl; lia). simpl.
        rewrite (take_S_r _ _ _ Hk). unfold after_pass. simpl.
        rewrite <- !app_assoc. reflexivity.
      * rewrite IH by (simpl; rewrite length_delete; [ lia | eauto ]).
        simpl. rewrite delete_take_drop.
        assert (Hpre : length (take k (clients s)) = k) by (rewrite length_take; lia).
        rewrite take_app, drop_app, Hpre.
        replace (S k - k) with 1 by lia.
        rewrite (take_ge (take k (clients s)) (S k)) by lia.
        rewrite (drop_ge (take k (clients s)) (S k)) by lia.
        unfold after_pass. simpl.
        destruct (drop (S k) (clients s)) as [ | d t ]; simpl.
        -- rewrite !app_nil_r. reflexivity.
        -- rewrite drop_0. rewrite <- app_assoc. reflexivity.
    + apply lookup_ge_None in Hk.
      rewrite IH by lia.
      rewrite (drop_ge (clients s) k), (drop_ge (clients s) (S k)) by lia.
      rewrite (take_ge (clients s) k), (take_ge (clients s) (S k)) by lia.
      reflexivity.
Qed.

Lemma broadcast_pass (s : state) :
  broadcast data s =
    (after_pass s (kept (readyState s) (clients s))
       (map (wire instance) (reached (readyState s) (clients s))),
     Normal tt).
Proof.
  unfold broadcast. run.
  destruct (clients s) as [ | c l ] eqn:E.
  - simpl. unfold after_pass. simpl. rewrite app_nil_r. rewrite <- E, state_eta. reflexivity.
  - change (0 <? length (c :: l))%nat with true. cbv iota.
    unfold clients_forEach. rewrite forEach_from_broadcast by lia.
    rewrite E, drop_0. reflexivity.
Qed.

End Pass.

(** ** The text of a targeted copy *)

Lemma stringify_props_no_key (k : string) (o : list (string * value)) :
  obj_get k o = None ->
  obj_delete k (stringify_props JSON_stringify o) = stringify_props JSON_stringify o.
Proof.
  induction o as [ | [k' v] o IH ]; simpl; intros H; [ reflexivity | ].
  destruct (String.eqb k k') eqn:E; [ discriminate | ].
  unfold stringify_props in *. simpl.
  destruct (JSON_stringify v); simpl; [ rewrite E; f_equal | ]; apply IH, H.
Qed.

Lemma stringify_delete_parse (k : string) (o : list (string * json)) :
  stringify_props JSON_stringify (obj_delete k (parse_object o)) = obj_delete k o.
Proof.
  induction o as [ | [k' j] o IH ]; simpl; [ reflexivity | ].
  destruct (String.eqb k k'); [ exact IH | ].
  unfold stringify_props in *. simpl. rewrite JSON_stringify_value. simpl.
  f_equal. exact IH.
Qed.

(** Without a [client] property the copy prints as the object itself. *)
Lemma plain_copy_text (o : list (string * value)) :
  obj_get "client" o = None ->
  stringify_object (obj_delete "client" (JSON_copy o)) = stringify_object o.
Proof.
  intros H. unfold stringify_object, JSON_copy.
  rewrite stringify_delete_parse, stringify_props_no_key by exact H. reflexivity.
Qed.

Lemma broadcast_plain (o : list (string * value)) (s : state) :
  obj_get "client" o = None ->
  broadcast (Envelope None o) s =
    (after_pass s (kept (readyState s) (clients s))
       (map (fun r => (r, stringify_object o)) (reached (readyState s) (clients s))),
     Normal tt).
Proof.
  intros H.
  rewrite (broadcast_pass (Envelope None o) (fun _ => obj_delete "client" (JSON_copy o)))
    by reflexivity.
  unfold wire. rewrite plain_copy_text by exact H. reflexivity.
Qed.

Lemma chat_copy (client : conn) (now : Z) (name message : value) (r : conn) :
  targeted_copy (chat_envelope client now name message) r
  = Normal (chat_instance client now name message r)
  /\ stringify_object (chat_instance client now name message r)
     = chat_text now name message (Nat.eqb r client).
Proof.
  unfold chat_instance, targeted_copy, triggered_by, chat_envelope, chat_text,
    JSON_copy, stringify_object, set_data_me. simpl.
  destruct (JSON_stringify name) as [jn | ] eqn:En;
    destruct (JSON_stringify message) as [jm | ] eqn:Em;
    destruct (Nat.eqb r client); simpl;
    rewrite ?JSON_stringify_value; simpl; split; reflexivity.
Qed.

Lemma broadcast_chat (client : conn) (now : Z) (name message : value) (s : state) :
  broadcast (chat_envelope client now name message) s =
    (after_pass s (kept (readyState s) (clients s))
       (map (fun r => (r, chat_text now name message (Nat.eqb r client)))
            (reached (readyState s) (clients s))),
     Normal tt).
Proof.
  rewrite (broadcast_pass _ (chat_instance client now name message))
    by (intros c; apply chat_copy).
  f_equal. f_equal. apply map_ext. intros r. unfold wire. f_equal. apply chat_copy.
Qed.

(** ** Facts about the log *)

Lemma inbox_app (c : conn) (out1 out2 : list (conn * json)) :
  inbox c (out1 ++ out2) = inbox c out1 ++ inbox c out2.
Proof.
  induction out1 as [ | [r j] out1 IH ]; simpl; [ reflexivity | ].
  destruct (Nat.eqb r c); simpl; rewrite IH; reflexivity.
Qed.

Lemma inbox_map_other (c : conn) (f : conn -> json) (l : list conn) :
  c ∉ l -> inbox c (map (fun r => (r, f r)) l) = [].
Proof.
  induction l as [ | r l IH ]; simpl; intros H; [ reflexivity | ].
  apply not_elem_of_cons in H as [Hne Hl].
  destruct (Nat.eqb r c) eqn:E; [ apply Nat.eqb_eq in E; congruence | ].
  apply IH, Hl.
Qed.

Lemma inbox_map_once (c : conn) (f : conn -> json) (l : list conn) :
  c ∈ l -> NoDup l -> inbox c (map (fun r => (r, f r)) l) = [f c].
Proof.
  induction l as [ | r l IH ]; simpl; intros Hin Hnd.
  - inversion Hin.
  - apply NoDup_cons in Hnd as [Hr Hnd].
    destruct (Nat.eqb r c) eqn:E.
    + apply Nat.eqb_eq in E. subst r. f_equal. apply inbox_map_other, Hr.
    + apply Nat.eqb_neq in E. apply elem_of_cons in Hin as [-> | Hin]; [ congruence | ].
      apply IH; assumption.
Qed.

Lemma not_reached (rs : conn -> ReadyState) (l : list conn) (c : conn) :
  c ∉ l -> c ∉ reached rs l.
Proof. intros H Hr. apply H. apply (reached_elem rs l c Hr). Qed.

Lemma not_kept (rs : conn -> ReadyState) (l : list conn) (c : conn) :
  c ∉ l -> c ∉ kept rs l.
Proof. intros H Hr. apply H. apply (kept_elem rs l c Hr). Qed.

(** ** C1: the pass over the registry *)

(** C1 (as the code runs at the failing input).  In the registry [0; 1]
    with connection 0 closed and connection 1 open, [broadcast] removes 0 at
    index 0 and then looks at index 1 of the shortened array, which is
    empty: the open member 1 is sent nothing.  In the registry [0; 2] with
    both closed, the same step leaves the closed member 2 in the registry.
    So an open member is skipped and a closed one survives the pass. *)
Theorem broadcast_skips_after_eviction :
  (1 ∈ clients stale_first
   /\ is_open (readyState stale_first 1) = true
   /\ broadcast (join_envelope (VStr "Bob")) stale_first
      = (State [1] ∅ only_1_open 0 [], Normal tt))
  /\ (2 ∈ clients stale_pair
      /\ is_open (readyState stale_pair 2) = false
      /\ broadcast (join_envelope (VStr "Bob")) stale_pair
         = (State [2] ∅ only_1_open 0 [], Normal tt)).
Proof.
  split; (split; [ | split ]); try reflexivity.
  - apply elem_of_cons. right. constructor.
  - apply elem_of_cons. right. constructor.
Qed.

(** X4.  What does hold for every registry and every envelope whose copies
    can be made: only closed members are removed, only open members are sent
    to, each with its own copy, and when every member is open the registry
    is unchanged and every member is sent to once, in order. *)
Lemma broadcast_sound (data : envelope) (instance : conn -> list (string * value))
    (s : state) :
  (forall c, targeted_copy data c = Normal (instance c)) ->
  exists l out,
    broadcast data s = (after_pass s l (map (wire instance) out), Normal tt)
    /\ l `sublist_of` clients s
    /\ (forall c, c ∈ clients s -> is_open (readyState s c) = true -> c ∈ l)
    /\ out `sublist_of` clients s
    /\ (forall c, c ∈ out -> is_open (readyState s c) = true)
    /\ (all_open s -> l = clients s /\ out = clients s).
Proof.
  intros H. exists (kept (readyState s) (clients s)), (reached (readyState s) (clients s)).
  split; [ apply broadcast_pass, H | ].
  split; [ apply kept_sublist | ].
  split; [ intros c; apply kept_open_elem | ].
  split; [ apply reached_sublist | ].
  split; [ intros c Hc; apply (reached_elem _ _ _ Hc) | ].
  intros Ho. split; [ apply kept_all_open | apply reached_all_open ]; exact Ho.
Qed.

(** ** C2: the copies of a chat message *)

Lemma chat_text_me (now : Z) (name message : value) :
  isSet message = true ->
  (json_get "data" (chat_text now name message true) ≫= json_get "me") = Some (JBool true)
  /\ (json_get "data" (chat_text now name message false) ≫= json_get "me") = None
  /\ (forall me, json_get "client" (chat_text now name message me) = None).
Proof.
  intros Hm. destruct (JSON_stringify_isSet message Hm) as [jm Ejm].
  unfold chat_text, stringify_object, stringify_props. simpl. rewrite Ejm.
  destruct (JSON_stringify name); simpl; repeat split; intros []; reflexivity.
Qed.

Lemma sendChat_broadcast (s : state) (client : conn) (data message : value) :
  prop data "message" = Normal message -> isSet message = true ->
  sendChat client data s
  = broadcast (chat_envelope client (clock s) (client_nickname s client) message) s.
Proof.
  intros Hp Hm. unfold sendChat. run. rewrite Hp. simpl. rewrite Hm. reflexivity.
Qed.
(** ** C2: the envelope of a chat and its copies as objects of a store *)
(** ** C2 again, with the envelope and its copies in a store *)

Lemma broadcast_callback_chat (client : conn) (now : Z) (name message : value)
    (r : conn) (k : nat) (s : state) :
  broadcast_callback (chat_envelope client now name message) r k s
  = if is_open (readyState s r)
    then (with_sent (sent s ++ [(r, chat_text now name message (Nat.eqb r client))]) s,
          Normal tt)
    else (with_clients (delete k (clients s)) s, Normal tt).
Proof.
  unfold broadcast_callback. run.
  destruct (chat_copy client now name message r) as [-> Ht].
  rewrite Ht. destruct (is_open (readyState s r)); reflexivity.
Qed.

Lemma lookup_app_plus {A : Type} (l1 l2 : list A) (i : nat) :
  (l1 ++ l2) !! (length l1 + i) = l2 !! i.
Proof. induction l1 as [ | x l1 IH ]; simpl; [ reflexivity | exact IH ]. Qed.

Lemma chat_objects_apart (h : store) (t ti : loc) (client : conn) (now : Z)
    (name message : value) :
  h !! t = Some (chat_object client ti) ->
  h !! ti = Some (chat_data_object now name message) ->
  exists m, length h = S (S m).
Proof.
  intros Ht Hi.
  assert (Hne : t <> ti) by (intros ->; rewrite Ht in Hi; discriminate).
  apply lookup_lt_Some in Ht. apply lookup_lt_Some in Hi.
  destruct (length h) as [ | [ | m ] ]; [ lia | lia | eauto ].
Qed.

Lemma store_stringify_Data (fuel : nat) (h : store) (v : value) :
  store_stringify fuel h (Data v) = Normal (JSON_stringify v).
Proof. destruct fuel; reflexivity. Qed.

Lemma store_stringify_Conn (fuel : nat) (h : store) (c : conn) :
  store_stringify fuel h (Conn c) = Normal (Some connection_text).
Proof. destruct fuel; reflexivity. Qed.

Lemma store_stringify_Ref (fuel : nat) (h : store) (l : loc) (o : object) :
  h !! l = Some o ->
  store_stringify (S fuel) h (Ref l)
  = match stringify_members (store_stringify fuel h) o with
    | Throw e => Throw e
    | Normal js => Normal (Some (JObj js))
    end.
Proof. intros H. simpl. rewrite H. reflexivity. Qed.

Lemma stringify_members_data (fuel : nat) (h : store) (o : list (string * value)) :
  stringify_members (store_stringify fuel h) (data_object o)
  = Normal (stringify_props JSON_stringify o).
Proof.
  induction o as [ | [k v] o IH ]; [ reflexivity | ].
  unfold data_object in *. cbn [map stringify_members fst snd].
  rewrite store_stringify_Data, IH. unfold stringify_props. simpl.
  destruct (JSON_stringify v); reflexivity.
Qed.

Lemma stringify_data_object (fuel : nat) (h : store) (l : loc)
    (o : list (string * value)) :
  h !! l = Some (data_object o) ->
  store_stringify (S fuel) h (Ref l)
  = Normal (Some (JObj (stringify_props JSON_stringify o))).
Proof.
  intros H. rewrite (store_stringify_Ref fuel h l _ H), stringify_members_data.
  reflexivity.
Qed.

Lemma stringify_chat_object (fuel : nat) (h : store) (t ti : loc) (client : conn)
    (o : list (string * value)) :
  h !! t = Some (chat_object client ti) ->
  h !! ti = Some (data_object o) ->
  store_stringify (S (S fuel)) h (Ref t)
  = Normal (Some (JObj [("client", connection_text);
                        ("action", JStr "incomingChat");
                        ("data", JObj (stringify_props JSON_stringify o))])).
Proof.
  intros Ht Hi. rewrite (store_stringify_Ref (S fuel) h t _ Ht).
  unfold chat_object. cbn [stringify_members].
  rewrite store_stringify_Conn, store_stringify_Data, (stringify_data_object fuel h ti o Hi).
  reflexivity.
Qed.

Lemma parse_chat_text (h : store) (jo : list (string * json)) :
  JSON_parse_store
    (JObj [("client", connection_text);
           ("action", JStr "incomingChat");
           ("data", JObj jo)]) h
  = (Ref (length h + 2),
     h ++ [ [];
            data_object (parse_object jo);
            [("client", Ref (length h));
             ("action", Data (VStr "incomingChat"));
             ("data", Ref (length h + 1))] ]).
Proof.
  unfold JSON_parse_store, connection_text. cbn [parse_members alloc].
  cbn [parse_object map data_object]. rewrite !length_app. simpl length.
  rewrite <- !app_assoc. simpl app.
  replace (length h + 1 + 1) with (length h + 2) by lia. reflexivity.
Qed.

Lemma data_object_set (k : string) (v : value) (o : list (string * value)) :
  obj_set k (Data v) (data_object o) = data_object (obj_set k v o).
Proof.
  induction o as [ | [k' v'] o IH ]; simpl; [ reflexivity | ].
  destruct (String.eqb k k'); simpl; [ reflexivity | ].
  f_equal. exact IH.
Qed.

Lemma chat_data_me (now : Z) (name message : value) :
  isSet message = true ->
  stringify_props JSON_stringify
    (obj_set "me" (VBool true)
       (JSON_copy [("time", VNum now); ("name", name); ("content", message)]))
  = stringify_props JSON_stringify
      ([("time", VNum now); ("name", name); ("content", message)]
       ++ [("me", VBool true)]).
Proof.
  intros Hm. destruct (JSON_stringify_isSet message Hm) as [jm Ejm].
  unfold JSON_copy, stringify_props, parse_object. simpl. rewrite Ejm.
  destruct (JSON_stringify name) as [jn | ]; simpl;
    rewrite ?JSON_stringify_value; reflexivity.
Qed.

Lemma chat_text_copy (now : Z) (name message : value) :
  isSet message = true ->
  JObj [("action", JStr "incomingChat");
        ("data", JObj (stringify_props JSON_stringify
                         (obj_set "me" (VBool true)
                            (JSON_copy [("time", VNum now); ("name", name);
                                        ("content", message)]))))]
  = chat_text now name message true
  /\ JObj [("action", JStr "incomingChat");
           ("data", JObj (stringify_props JSON_stringify
                            (JSON_copy [("time", VNum now); ("name", name);
                                        ("content", message)])))]
     = chat_text now name message false.
Proof.
  intros Hm. rewrite (chat_data_me now name message Hm).
  unfold JSON_copy. rewrite stringify_parse_object.
  unfold chat_text, stringify_object. rewrite app_nil_r. split; reflexivity.
Qed.

(** One turn of the loop on the store does to the registry and the log
    what the turn on values does, and adds objects to the store without
    writing into any that was there. *)
Lemma broadcast_callback_store_chat (h : store) (s : state) (t ti : loc)
    (client : conn) (now : Z) (name message : value) (r : conn) (k : nat) :
  h !! t = Some (chat_object client ti) ->
  h !! ti = Some (chat_data_object now name message) ->
  isSet message = true ->
  exists extra,
    broadcast_callback_store t r k (h, s)
    = ((h ++ extra,
        fst (broadcast_callback (chat_envelope client now name message) r k s)),
       snd (broadcast_callback (chat_envelope client now name message) r k s)).
Proof.
  intros Ht Hi Hm.
  destruct (chat_objects_apart h t ti client now name message Ht Hi) as [m Hlen].
  rewrite broadcast_callback_chat.
  unfold broadcast_callback_store, JSON_stringify_store.
  rewrite Hlen. unfold chat_data_object in Hi.
  rewrite (stringify_chat_object m h t ti client _ Ht Hi).
  rewrite parse_chat_text.
  set (o := [("time", VNum now); ("name", name); ("content", message)]) in *.
  change (parse_object (stringify_props JSON_stringify o)) with (JSON_copy o).
  rewrite (alter_app_r (obj_delete "client") h _ 2). cbn [alter list_alter].
  cbn [obj_delete String.eqb Ascii.eqb Bool.eqb].
  match goal with
  | |- context [store_triggered_by ?x t r] =>
      match x with
      | context [cons ?c nil] => set (copy := c)
      end
  end.
  match goal with
  | |- context [store_triggered_by ?x t r] => set (h2 := x)
  end.
  assert (Htr : store_triggered_by h2 t r = Nat.eqb r client).
  { unfold store_triggered_by, h2. rewrite (lookup_app_l_Some _ _ _ _ Ht). reflexivity. }
  rewrite Htr.
  assert (Hfinal : forall (d : list (string * value)) (h3 : store),
            h3 = h ++ [ []; data_object d; copy ] ->
            store_stringify (length h3) h3 (Ref (length h + 2))
            = Normal (Some (JObj [("action", JStr "incomingChat");
                                  ("data", JObj (stringify_props JSON_stringify d))]))).
  { intros d h3 ->.
    assert (L2 : (h ++ [ []; data_object d; copy ]) !! (length h + 2) = Some copy)
      by exact (lookup_app_plus h [ []; data_object d; copy ] 2).
    assert (L1 : (h ++ [ []; data_object d; copy ]) !! (length h + 1)
                 = Some (data_object d))
      by exact (lookup_app_plus h [ []; data_object d; copy ] 1).
    assert (Hfuel : exists f, length (h ++ [ []; data_object d; copy ]) = S (S f))
      by (rewrite length_app, Hlen; simpl; eauto).
    destruct Hfuel as [f ->].
    rewrite (store_stringify_Ref _ _ _ _ L2).
    unfold copy. cbn [stringify_members].
    rewrite store_stringify_Data, (stringify_data_object _ _ _ _ L1).
    reflexivity. }
  destruct (Nat.eqb r client) eqn:Er.
  - unfold store_set_data_me, h2.
    rewrite (lookup_app_plus h _ 2). cbn [lookup list_lookup].
    unfold copy at 1. cbn [obj_get String.eqb Ascii.eqb Bool.eqb].
    rewrite (lookup_app_plus h _ 1). cbn [lookup list_lookup].
    rewrite (insert_app_r h _ 1). cbn [insert list_insert].
    rewrite data_object_set.
    destruct (is_open (readyState s r)).
    + rewrite (Hfinal (obj_set "me" (VBool true) (JSON_copy o))) by reflexivity.
      unfold o. rewrite (proj1 (chat_text_copy now name message Hm)).
      eexists. reflexivity.
    + eexists. reflexivity.
  - unfold h2. destruct (is_open (readyState s r)).
    + rewrite (Hfinal (JSON_copy o)) by reflexivity.
      unfold o. rewrite (proj2 (chat_text_copy now name message Hm)).
      eexists. reflexivity.
    + eexists. reflexivity.
Qed.

Lemma forEach_store_chat (t ti : loc) (client : conn) (now : Z) (name message : value)
    (n : nat) :
  isSet message = true ->
  forall (k : nat) (h : store) (s : state),
    h !! t = Some (chat_object client ti) ->
    h !! ti = Some (chat_data_object now name message) ->
    exists extra,
      forEach_store n k (broadcast_callback_store t) (h, s)
      = ((h ++ extra,
          fst (forEach_from n k (broadcast_callback (chat_envelope client now name message)) s)),
         snd (forEach_from n k (broadcast_callback (chat_envelope client now name message)) s)).
Proof.
  intros Hm. induction n as [ | n IH ]; intros k h s Ht Hi.
  - exists []. simpl. rewrite app_nil_r. reflexivity.
  - cbn [forEach_store forEach_from snd].
    destruct (clients s !! k) as [r | ]; [ | apply (IH (S k) h s Ht Hi) ].
    destruct (broadcast_callback_store_chat h s t ti client now name message r k Ht Hi Hm)
      as [extra1 ->].
    destruct (broadcast_callback (chat_envelope client now name message) r k s)
      as [s1 [ [] | e ]]; cbn [fst snd].
    + destruct (IH (S k) (h ++ extra1) s1) as [extra2 E2].
      * apply lookup_app_l_Some, Ht.
      * apply lookup_app_l_Some, Hi.
      * exists (extra1 ++ extra2). rewrite app_assoc. exact E2.
    + exists extra1. reflexivity.
Qed.

Lemma broadcast_store_chat (t ti : loc) (client : conn) (now : Z) (name message : value)
    (h : store) (s : state) :
  isSet message = true ->
  h !! t = Some (chat_object client ti) ->
  h !! ti = Some (chat_data_object now name message) ->
  exists extra,
    broadcast_store t (h, s)
    = ((h ++ extra,
        after_pass s (kept (readyState s) (clients s))
          (map (fun r => (r, chat_text now name message (Nat.eqb r client)))
               (reached (readyState s) (clients s)))),
       Normal tt).
Proof.
  intros Hm Ht Hi.
  pose proof (broadcast_chat client now name message s) as Hb.
  unfold broadcast_store. unfold broadcast in Hb. revert Hb. run.
  destruct (0 <? length (clients s))%nat.
  - unfold clients_forEach.
    destruct (forEach_store_chat t ti client now name message (length (clients s)) Hm
                0 h s Ht Hi) as [extra ->].
    intros ->. exists extra. reflexivity.
  - intros [= <-]. exists []. rewrite app_nil_r. reflexivity.
Qed.

(** C2 as stated fails where it speaks of the copies delivered to the other
    N-1 members: in the registry [1; 0] the member 0 is closed, and when
    member 1 sends a chat it is removed and sent no copy. *)
Lemma chat_copies_counterexample :
  (1 ∈ clients stale_last)
  /\ prop says_hi "message" = Normal (VStr "hi")
  /\ isSet (VStr "hi") = true
  /\ ~ (forall m, m ∈ clients stale_last -> m <> 1 ->
          inbox m (sent (snd (fst (sendChat_store 1 says_hi ([], stale_last))))) <> []).
Proof.
  split; [ constructor | split; [ reflexivity | split; [ reflexivity | ] ] ].
  intros H. apply (H 0); [ apply elem_of_cons; right; constructor | discriminate | ].
  reflexivity.
Qed.

(** C2 (amended).  [sendChat] with a set message builds the envelope and
    its [data] object in the store and broadcasts it.  Each turn of the pass
    makes its copy in new objects: after the pass the store is the one
    before, followed by the two objects of the envelope exactly as they
    were built and by the copies, so that neither the envelope nor anything
    older has been written into.  The texts go to the members the pass
    reaches, which are members with an open channel, and all N members in
    order when every channel is open; the text for the sender has
    [data.me] true, the text for anyone else has no [me], and none has a
    [client] member.  Broadcasting the same envelope object again, from
    any later state and store, gives the same texts. *)
Theorem sendChat_store_copies (h : store) (s : state) (client : conn)
    (data message : value) :
  prop data "message" = Normal message ->
  isSet message = true ->
  let name := client_nickname s client in
  let text := chat_text (clock s) name message in
  let recipients := reached (readyState s) (clients s) in
  let envelope := [ chat_data_object (clock s) name message;
                    chat_object client (length h) ] in
  exists copies,
    sendChat_store client data (h, s)
    = ((h ++ envelope ++ copies,
        after_pass s (kept (readyState s) (clients s))
          (map (fun r => (r, text (Nat.eqb r client))) recipients)),
       Normal tt)
    /\ sendChat client data s
       = (after_pass s (kept (readyState s) (clients s))
            (map (fun r => (r, text (Nat.eqb r client))) recipients),
          Normal tt)
    /\ (forall r, r ∈ recipients -> r ∈ clients s /\ is_open (readyState s r) = true)
    /\ (all_open s -> recipients = clients s)
    /\ (json_get "data" (text true) ≫= json_get "me") = Some (JBool true)
    /\ (json_get "data" (text false) ≫= json_get "me") = None
    /\ (forall me, json_get "client" (text me) = None)
    /\ (forall (later : list object) (s1 : state),
          exists more,
            broadcast_store (S (length h)) ((h ++ envelope ++ copies) ++ later, s1)
            = ((((h ++ envelope ++ copies) ++ later) ++ more,
                after_pass s1 (kept (readyState s1) (clients s1))
                  (map (fun r => (r, text (Nat.eqb r client)))
                       (reached (readyState s1) (clients s1)))),
               Normal tt)).
Proof.
  intros Hp Hm name text recipients envelope.
  destruct (chat_text_me (clock s) name message Hm) as (M1 & M2 & M3).
  assert (Hi : forall rest : list object,
            (h ++ envelope ++ rest) !! length h
            = Some (chat_data_object (clock s) name message)).
  { intros rest. pose proof (lookup_app_plus h (envelope ++ rest) 0) as H.
    rewrite Nat.add_0_r in H. exact H. }
  assert (Ht : forall rest : list object,
            (h ++ envelope ++ rest) !! S (length h)
            = Some (chat_object client (length h))).
  { intros rest. pose proof (lookup_app_plus h (envelope ++ rest) 1) as H.
    rewrite Nat.add_1_r in H. exact H. }
  destruct (broadcast_store_chat (S (length h)) (length h) client (clock s) name message
              (h ++ envelope ++ []) s Hm (Ht []) (Hi [])) as [copies Hb].
  exists copies.
  split; [ | split; [ | split; [ | split; [ | split; [ | split; [ | split ] ] ] ] ] ].
  - unfold sendChat_store. rewrite Hp, Hm. cbn [negb alloc].
    rewrite length_app. cbn [length].
    replace (length h + 1) with (S (length h)) by lia.
    rewrite app_nil_r in Hb. rewrite <- app_assoc. cbn [app].
    fold name. unfold envelope in Hb. cbn [app] in Hb. rewrite Hb.
    rewrite <- !app_assoc. reflexivity.
  - rewrite (sendChat_broadcast s client data message Hp Hm). apply broadcast_chat.
  - intros r Hr. apply (reached_elem _ _ _ Hr).
  - apply reached_all_open.
  - exact M1.
  - exact M2.
  - exact M3.
  - intros later s1.
    apply (broadcast_store_chat (S (length h)) (length h) client (clock s) name message
             ((h ++ envelope ++ copies) ++ later) s1 Hm).
    + rewrite <- !app_assoc. rewrite (app_assoc envelope). apply Ht.
    + rewrite <- !app_assoc. rewrite (app_assoc envelope). apply Hi.
Qed.

Lemma sendChat_store_copies_witness :
  prop says_hi "message" = Normal (VStr "hi")
  /\ isSet (VStr "hi") = true
  /\ exists copies,
       sendChat_store 1 says_hi ([], two_open)
       = (([] ++ [ chat_data_object 7 VUndef (VStr "hi"); chat_object 1 0 ] ++ copies,
           after_pass two_open [0; 1]
             [(0, chat_text 7 VUndef (VStr "hi") false);
              (1, chat_text 7 VUndef (VStr "hi") true)]),
          Normal tt).
Proof.
  split; [ reflexivity | split; [ reflexivity | ] ].
  destruct (sendChat_store_copies [] two_open 1 says_hi (VStr "hi") eq_refl eq_refl)
    as (copies & H & _).
  exists copies. exact H.
Defined.

(** ** [indexOf] and [splice] on the registry *)

Lemma indexOf_None (c : conn) (l : list conn) : indexOf c l = None <-> c ∉ l.
Proof.
  induction l as [ | x l IH ]; simpl.
  - split; [ intros _ H; inversion H | reflexivity ].
  - destruct (Nat.eqb x c) eqn:E.
    + apply Nat.eqb_eq in E. subst x. split; [ discriminate | ].
      intros H. exfalso. apply H. constructor.
    + apply Nat.eqb_neq in E. rewrite not_elem_of_cons.
      destruct (indexOf c l); simpl.
      * split; [ discriminate | ]. intros [_ H]. apply IH in H. discriminate.
      * split; [ | reflexivity ]. intros _. split; [ congruence | apply IH; reflexivity ].
Qed.

Lemma indexOf_Some (c : conn) (l : list conn) (i : nat) :
  indexOf c l = Some i -> l !! i = Some c /\ c ∉ take i l.
Proof.
  revert i. induction l as [ | x l IH ]; simpl; intros i H; [ discriminate | ].
  destruct (Nat.eqb x c) eqn:E.
  - apply Nat.eqb_eq in E. injection H as <-. subst x. simpl.
    split; [ reflexivity | apply not_elem_of_nil ].
  - apply Nat.eqb_neq in E. destruct (indexOf c l) as [j | ]; simpl in H; [ | discriminate ].
    injection H as <-. destruct (IH j eq_refl) as [H1 H2]. simpl.
    split; [ exact H1 | ]. rewrite not_elem_of_cons. split; [ congruence | exact H2 ].
Qed.

Lemma indexOf_last (c : conn) (l : list conn) :
  c ∉ l -> indexOf c (l ++ [c]) = Some (length l).
Proof.
  induction l as [ | x l IH ]; simpl; intros H.
  - rewrite Nat.eqb_refl. reflexivity.
  - apply not_elem_of_cons in H as [Hne Hl].
    destruct (Nat.eqb x c) eqn:E; [ apply Nat.eqb_eq in E; congruence | ].
    rewrite IH by exact Hl. reflexivity.
Qed.

Lemma delete_last (c : conn) (l : list conn) : delete (length l) (l ++ [c]) = l.
Proof. induction l as [ | x l IH ]; simpl; [ reflexivity | f_equal; exact IH ]. Qed.

(** After the first occurrence is spliced out of a registry without
    repetition the connection is gone. *)
Lemma delete_indexOf_gone (c : conn) (l : list conn) (i : nat) :
  NoDup l -> indexOf c l = Some i -> c ∉ delete i l.
Proof.
  intros Hnd Hi. destruct (indexOf_Some c l i Hi) as [Hl Ht].
  rewrite delete_take_drop. rewrite <- (take_drop_middle l i c Hl) in Hnd.
  apply NoDup_app in Hnd as (_ & _ & Hnd). apply NoDup_cons in Hnd as [Hc _].
  rewrite not_elem_of_app. split; assumption.
Qed.

(** ** The two paths through [joinChat] that end in an error reply, and
    the one that joins *)

Lemma joinChat_member (s : state) (client : conn) (data : value) :
  client ∈ clients s ->
  joinChat client data s
  = (with_sent (sent s ++ [(client, error_reply "Client already joined")]) s, Normal tt).
Proof.
  intros H. unfold joinChat. run.
  destruct (indexOf client (clients s)) eqn:E; [ reflexivity | ].
  apply indexOf_None in E. contradiction.
Qed.

Lemma joinChat_unnamed (s : state) (client : conn) (data nick : value) :
  client ∉ clients s ->
  prop data "nickname" = Normal nick ->
  isSet nick = false ->
  joinChat client data s
  = (with_sent (sent s ++ [(client, error_reply "nickname is missing")]) s, Normal tt).
Proof.
  intros H Hp Hn. unfold joinChat. run.
  apply indexOf_None in H. rewrite H, Hp. simpl. rewrite Hn. reflexivity.
Qed.

Lemma joinChat_sequence (s : state) (client : conn) (data nick : value) :
  client ∉ clients s ->
  prop data "nickname" = Normal nick ->
  isSet nick = true ->
  joinChat client data s
  = (broadcast (join_envelope nick);;
     set_nickname client nick;;
     push client;;
     match ToString nick with
     | Some text => send client (welcome_text nick text)
     | None => lift (Throw TypeError)
     end) s.
Proof.
  intros H Hp Hn. unfold joinChat.
  unfold mbind at 1. unfold M_bind at 1. unfold get_clients at 1.
  apply indexOf_None in H. rewrite H.
  unfold mbind at 1. unfold M_bind at 1. unfold lift at 1. rewrite Hp.
  rewrite Hn. simpl. unfold join_envelope, welcome_text.
  destruct (ToString nick); reflexivity.
Qed.

(** The state in which [joinChat] leaves the server before the welcome. *)
Lemma joinChat_joined (s : state) (client : conn) (data nick : value) :
  client ∉ clients s ->
  prop data "nickname" = Normal nick ->
  isSet nick = true ->
  let rs := readyState s in
  let joined :=
    State (kept rs (clients s) ++ [client]) (<[client := nick]> (nickname s)) rs (clock s)
      (sent s ++ map (fun r => (r, plain_text (join_envelope nick)))
                     (reached rs (clients s))) in
  joinChat client data s =
    match ToString nick with
    | Some text =>
        (with_sent (sent joined ++ [(client, welcome_text nick text)]) joined, Normal tt)
    | None => (joined, Throw TypeError)
    end.
Proof.
  intros H Hp Hn rs joined.
  rewrite (joinChat_sequence s client data nick H Hp Hn).
  unfold mbind at 1. unfold M_bind at 1.
  unfold join_envelope. rewrite broadcast_plain by reflexivity.
  run. destruct (ToString nick); reflexivity.
Qed.

Lemma leaveChat_member (s : state) (client : conn) (i : nat) :
  indexOf client (clients s) = Some i ->
  leaveChat client s
  = broadcast (leave_envelope (client_nickname s client))
      (with_clients (delete i (clients s)) s).
Proof.
  intros H.
  assert (Hlen : (0 <? length (clients s))%nat = true)
    by (destruct (clients s); [ discriminate H | reflexivity ]).
  unfold leaveChat. run. rewrite H, Hlen. reflexivity.
Qed.

Lemma leaveChat_absent (s : state) (client : conn) :
  client ∉ clients s -> leaveChat client s = (s, Normal tt).
Proof.
  intros H. unfold leaveChat. run. apply indexOf_None in H. rewrite H.
  destruct (0 <? length (clients s))%nat; reflexivity.
Qed.

(** ** C5: the order of a join *)




(** When the nickname has no text form the handler throws after the push
    and sends no welcome. *)
Lemma joinChat_no_text (s : state) (client : conn) (data nick : value) :
  client ∉ clients s ->
  prop data "nickname" = Normal nick ->
  isSet nick = true ->
  ToString nick = None ->
  snd (joinChat client data s) = Throw TypeError
  /\ client ∈ clients (fst (joinChat client data s))
  /\ inbox client (sent (fst (joinChat client data s))) = inbox client (sent s).
Proof.
  intros H Hp Hn Ht.
  rewrite (joinChat_joined s client data nick H Hp Hn), Ht. simpl.
  split; [ reflexivity | ]. split.
  - apply elem_of_app. right. constructor.
  - rewrite inbox_app.
    rewrite (inbox_map_other client (fun _ => plain_text (join_envelope nick)))
      by (apply not_reached, H).
    apply app_nil_r.
Qed.

(** ** C3: join, then leave *)

(** C3 as stated fails where it says that the registry returns to its
    prior membership: the broadcasts of the join and of the leave remove the
    members they find closed. *)
Lemma join_leave_counterexample :
  (1 ∉ clients stale_only)
  /\ prop bob_joins "nickname" = Normal (VStr "Bob")
  /\ isSet (VStr "Bob") = true
  /\ ~ (forall m,
          m ∈ clients (fst (leaveChat 1 (fst (joinChat 1 bob_joins stale_only))))
          <-> m ∈ clients stale_only).
Proof.
  split; [ | split; [ reflexivity | split; [ reflexivity | ] ] ].
  - intros H. apply list_elem_of_singleton in H. discriminate.
  - intros H. destruct (H 0) as [_ H0]. specialize (H0 ltac:(constructor)).
    vm_compute in H0. inversion H0.
Qed.

(** C3 (amended).  For a non-member and a set nickname, join followed by
    leave ends with the registry being the prior one less the members the
    two passes found closed: no one is added, every prior member with an
    open channel is still there, and when all were open the registry is the
    prior one.  In between exactly one clientJoin pass and one clientLeave
    pass are sent, in this order around the welcome, neither reaching the
    connection itself.  The welcome is absent when the conversion of the
    nickname to a string throws, and otherwise one welcomeClient to the
    connection, with the greeting "Welcome <text>!" when the numbers printed
    in it are integers up to 2^53. *)
Theorem join_then_leave (s : state) (client : conn) (data nick : value) :
  client ∉ clients s ->
  prop data "nickname" = Normal nick ->
  isSet nick = true ->
  let rs := readyState s in
  let s1 := fst (joinChat client data s) in
  let s2 := fst (leaveChat client s1) in
  let joins := reached rs (clients s) in
  let leaves := reached rs (kept rs (clients s)) in
  snd (leaveChat client s1) = Normal tt
  /\ clients s2 = kept rs (kept rs (clients s))
  /\ clients s2 `sublist_of` clients s
  /\ (forall m, m ∈ clients s -> is_open (rs m) = true -> m ∈ clients s2)
  /\ (client ∉ clients s2)
  /\ (all_open s -> clients s2 = clients s)
  /\ (client ∉ joins)
  /\ (client ∉ leaves)
  /\ (all_open s -> joins = clients s /\ leaves = clients s)
  /\ exists welcome,
       sent s2
       = sent s ++ map (fun r => (r, plain_text (join_envelope nick))) joins
                ++ welcome
                ++ map (fun r => (r, plain_text (leave_envelope nick))) leaves
       /\ (ToString nick = None -> welcome = [])
       /\ (ToString nick <> None ->
           exists greeting, welcome = [(client, welcome_reply nick greeting)])
       /\ (forall text, ToString nick = Some text -> safe_numbers nick = true ->
             welcome = [(client, welcome_reply nick ("Welcome " ++ text ++ "!"))]).
Proof.
  intros H Hp Hn rs s1 s2 joins leaves.
  set (welcome := match ToString nick with
                  | Some text => [(client, welcome_text nick text)]
                  | None => []
                  end).
  pose proof (joinChat_joined s client data nick H Hp Hn) as Hj. simpl in Hj.
  assert (Hk : client ∉ kept rs (clients s)) by (apply not_kept, H).
  set (joined := State (kept rs (clients s) ++ [client]) (<[client := nick]> (nickname s))
                   rs (clock s)
                   (sent s ++ map (fun r => (r, plain_text (join_envelope nick))) joins)).
  assert (Hs1 : clients s1 = kept rs (clients s) ++ [client]
                /\ readyState s1 = rs
                /\ client_nickname s1 client = nick
                /\ sent s1 = sent joined ++ welcome).
  { unfold s1, welcome. rewrite Hj. fold rs. fold joins. fold joined.
    unfold client_nickname.
    destruct (ToString nick); simpl; rewrite lookup_insert_eq; simpl;
      rewrite ?app_nil_r; repeat split; reflexivity. }
  destruct Hs1 as (Hc1 & Hr1 & Hn1 & Ht1).
  assert (Hl : leaveChat client s1
               = (after_pass (with_clients (kept rs (clients s)) s1)
                    (kept rs (kept rs (clients s)))
                    (map (fun r => (r, plain_text (leave_envelope nick))) leaves),
                  Normal tt)).
  { rewrite (leaveChat_member s1 client (length (kept rs (clients s))))
      by (rewrite Hc1; apply indexOf_last, Hk).
    rewrite Hn1, Hc1, delete_last.
    unfold leave_envelope. rewrite broadcast_plain by reflexivity.
    simpl. rewrite Hr1. reflexivity. }
  unfold s2. rewrite Hl. simpl.
  split; [ reflexivity | ].
  split; [ reflexivity | ].
  split; [ etransitivity; apply kept_sublist | ].
  split; [ intros m Hm Ho; apply kept_open_elem; [ apply kept_open_elem | ]; assumption | ].
  split; [ apply not_kept, Hk | ].
  split; [ intros Ho; rewrite (kept_all_open rs (clients s) Ho); apply kept_all_open, Ho | ].
  split; [ apply not_reached, H | ].
  split; [ apply not_reached, Hk | ].
  split.
  { intros Ho. unfold leaves. rewrite (kept_all_open rs (clients s) Ho).
    split; apply reached_all_open, Ho. }
  exists welcome.
  split; [ rewrite Ht1; simpl; rewrite <- !app_assoc; reflexivity | ].
  unfold welcome. destruct (ToString nick) as [text | ].
  - split; [ discriminate | ]. split.
    + intros _. exists ("Welcome " ++ text ++ "!")%string. reflexivity.
    + intros text' [= <-] _. reflexivity.
  - split; [ reflexivity | ]. split; [ intros E; contradiction | discriminate ].
Qed.

Lemma join_then_leave_witness :
  (1 ∉ clients stale_only)
  /\ prop bob_joins "nickname" = Normal (VStr "Bob")
  /\ isSet (VStr "Bob") = true
  /\ clients (fst (leaveChat 1 (fst (joinChat 1 bob_joins stale_only))))
     = kept only_1_open (kept only_1_open [0]).
Proof.
  assert (H : 1 ∉ clients stale_only).
  { intros H. apply list_elem_of_singleton in H. discriminate. }
  split; [ exact H | repeat (split; [ reflexivity | ]) ].
  apply (join_then_leave stale_only 1 bob_joins (VStr "Bob") H eq_refl eq_refl).
Defined.

(** ** C7: the error replies of a join *)

Lemma isSet_false (v : value) : isSet v = false <-> v = VUndef \/ v = VNull.
Proof.
  destruct v; simpl; split; intros H; try discriminate; auto;
    destruct H as [H | H]; discriminate.
Qed.

Lemma replied_effect (s : state) (client : conn) (error : string) :
  clients (fst (replied s client error)) = clients s
  /\ nickname (fst (replied s client error)) = nickname s
  /\ sent (fst (replied s client error)) = sent s ++ [(client, error_reply error)]
  /\ error_reply error = JObj [("error", JStr error)]
  /\ snd (replied s client error) = Normal tt.
Proof. repeat split. Qed.

(** C7.  A join by a member is answered with "Client already joined",
    whatever the request holds; a join by a non-member whose nickname is
    undefined or null is answered with "nickname is missing".  In both
    cases the reply is the only text sent, and the registry and every
    nickname are left as they were. *)
Theorem joinChat_errors (s : state) (client : conn) (data : value) :
  (client ∈ clients s ->
   joinChat client data s = replied s client "Client already joined")
  /\ (forall nick,
        client ∉ clients s ->
        prop data "nickname" = Normal nick ->
        nick = VUndef \/ nick = VNull ->
        joinChat client data s = replied s client "nickname is missing")
  /\ (forall error,
        clients (fst (replied s client error)) = clients s
        /\ nickname (fst (replied s client error)) = nickname s
        /\ sent (fst (replied s client error)) = sent s ++ [(client, error_reply error)]
        /\ error_reply error = JObj [("error", JStr error)]
        /\ snd (replied s client error) = Normal tt).
Proof.
  split; [ apply joinChat_member | ].
  split; [ | intros error; apply replied_effect ].
  intros nick H Hp Hn. apply isSet_false in Hn.
  apply (joinChat_unnamed s client data nick H Hp Hn).
Qed.

Lemma joinChat_errors_witness :
  (1 ∈ clients stale_first)
  /\ joinChat 1 bob_joins stale_first = replied stale_first 1 "Client already joined".
Proof.
  assert (H : 1 ∈ clients stale_first) by (apply elem_of_cons; right; constructor).
  split; [ exact H | ].
  apply (proj1 (joinChat_errors stale_first 1 bob_joins) H).
Defined.

(** ** C8: leaving when not a member *)

Lemma leaveChat_gone (s : state) (client : conn) :
  NoDup (clients s) -> client ∉ clients (fst (leaveChat client s)).
Proof.
  intros Hnd. destruct (indexOf client (clients s)) as [i | ] eqn:E.
  - rewrite (leaveChat_member s client i E).
    unfold leave_envelope. rewrite broadcast_plain by reflexivity. simpl.
    apply not_kept. apply delete_indexOf_gone; assumption.
  - apply indexOf_None in E. rewrite leaveChat_absent by exact E. exact E.
Qed.

(** C8.  [leaveChat] for a connection that is not in the registry changes
    nothing: the state is the same (so nothing is sent) and the handler
    returns normally.  After a leave the connection is not in a registry
    that had no repetition, so leaving a second time changes nothing. *)
Theorem leaveChat_not_member (s : state) (client : conn) :
  (client ∉ clients s -> leaveChat client s = (s, Normal tt))
  /\ (NoDup (clients s) ->
      (client ∉ clients (fst (leaveChat client s)))
      /\ leaveChat client (fst (leaveChat client s))
         = (fst (leaveChat client s), Normal tt)).
Proof.
  split; [ apply leaveChat_absent | ].
  intros Hnd. pose proof (leaveChat_gone s client Hnd) as Hg.
  split; [ exact Hg | apply leaveChat_absent, Hg ].
Qed.

Lemma leaveChat_not_member_witness :
  (5 ∉ clients stale_first)
  /\ leaveChat 5 stale_first = (stale_first, Normal tt).
Proof.
  assert (H : 5 ∉ clients stale_first).
  { intros H. apply elem_of_cons in H as [H | H]; [ discriminate | ].
    apply list_elem_of_singleton in H. discriminate. }
  split; [ exact H | ].
  apply (proj1 (leaveChat_not_member stale_first 5) H).
Defined.

(** ** C9 and C10: renaming and sending, member or not *)

Lemma changeNickname_broadcast (s : state) (client : conn) (data nick : value) :
  prop data "nickname" = Normal nick ->
  isSet nick = true ->
  changeNickname client data s
  = broadcast (rename_envelope (client_nickname s client) nick)
      (with_nickname (<[client := nick]> (nickname s)) s).
Proof.
  intros Hp Hn. unfold changeNickname. run. rewrite Hp. simpl. rewrite Hn. reflexivity.
Qed.

Lemma changeNickname_unnamed (s : state) (client : conn) (data nick : value) :
  prop data "nickname" = Normal nick ->
  isSet nick = false ->
  changeNickname client data s = replied s client "nickname is missing".
Proof.
  intros Hp Hn. unfold changeNickname. run. rewrite Hp. simpl. rewrite Hn. reflexivity.
Qed.

Lemma changeNickname_pass (s : state) (client : conn) (data nick : value) :
  prop data "nickname" = Normal nick ->
  isSet nick = true ->
  changeNickname client data s
  = (after_pass (with_nickname (<[client := nick]> (nickname s)) s)
       (kept (readyState s) (clients s))
       (map (fun r => (r, plain_text (rename_envelope (client_nickname s client) nick)))
            (reached (readyState s) (clients s))),
     Normal tt).
Proof.
  intros Hp Hn. rewrite (changeNickname_broadcast s client data nick Hp Hn).
  unfold rename_envelope. rewrite broadcast_plain by reflexivity. reflexivity.
Qed.

(** C9 as stated fails where it says that the broadcast is delivered to all
    members: the member 0 of the registry [1; 0] is closed, and when member
    1 renames itself the pass removes 0 and sends it nothing. *)
Lemma rename_delivery_counterexample :
  prop bob_joins "nickname" = Normal (VStr "Bob")
  /\ isSet (VStr "Bob") = true
  /\ ~ (forall m, m ∈ clients stale_last ->
          plain_text (rename_envelope (client_nickname stale_last 1) (VStr "Bob"))
            ∈ inbox m (sent (fst (changeNickname 1 bob_joins stale_last)))).
Proof.
  split; [ reflexivity | split; [ reflexivity | ] ].
  intros H. specialize (H 0 ltac:(apply elem_of_cons; right; constructor)).
  vm_compute in H. inversion H.
Qed.

(** C9 (amended).  A rename whose nickname is undefined or null is answered
    with "nickname is missing" and does nothing else.  Otherwise the old
    name is read, the new one assigned, and nicknameChange with both is
    broadcast over the whole registry, the renamed connection included: the
    copies go to members with an open channel, a member found closed is
    removed instead, and when every member is open each of them, the
    renamed connection among them, is sent the text. *)
Theorem changeNickname_spec (s : state) (client : conn) (data nick : value) :
  prop data "nickname" = Normal nick ->
  (nick = VUndef \/ nick = VNull ->
   changeNickname client data s = replied s client "nickname is missing")
  /\ (isSet nick = true ->
      let old := client_nickname s client in
      let renamed := with_nickname (<[client := nick]> (nickname s)) s in
      let text := plain_text (rename_envelope old nick) in
      let rs := readyState s in
      changeNickname client data s = broadcast (rename_envelope old nick) renamed
      /\ changeNickname client data s
         = (after_pass renamed (kept rs (clients s))
              (map (fun r => (r, text)) (reached rs (clients s))),
            Normal tt)
      /\ client_nickname (fst (changeNickname client data s)) client = nick
      /\ (forall r, r ∈ reached rs (clients s) -> r ∈ clients s /\ is_open (rs r) = true)
      /\ (all_open s ->
          kept rs (clients s) = clients s /\ reached rs (clients s) = clients s)
      /\ (all_open s -> client ∈ clients s ->
          text ∈ inbox client (sent (fst (changeNickname client data s))))).
Proof.
  intros Hp. split.
  - intros Hn. apply isSet_false in Hn.
    apply (changeNickname_unnamed s client data nick Hp Hn).
  - intros Hn old renamed text rs.
    pose proof (changeNickname_broadcast s client data nick Hp Hn) as Hb.
    assert (Hc : changeNickname client data s
                 = (after_pass renamed (kept rs (clients s))
                      (map (fun r => (r, text)) (reached rs (clients s))),
                    Normal tt)).
    { apply (changeNickname_pass s client data nick Hp Hn). }
    split; [ exact Hb | ]. split; [ exact Hc | ].
    split; [ rewrite Hc; unfold client_nickname; simpl; rewrite lookup_insert_eq;
             reflexivity | ].
    split; [ intros r Hr; apply (reached_elem _ _ _ Hr) | ].
    split; [ intros Ho; split; [ apply kept_all_open | apply reached_all_open ]; exact Ho | ].
    intros Ho Hin. rewrite Hc. simpl. rewrite inbox_app.
    apply elem_of_app. right. fold rs. rewrite (reached_all_open rs (clients s) Ho).
    clear - Hin. induction (clients s) as [ | x l IH ]; [ inversion Hin | ].
    simpl. destruct (Nat.eqb x client) eqn:E; [ constructor | ].
    apply Nat.eqb_neq in E. apply elem_of_cons in Hin as [-> | Hin]; [ congruence | ].
    apply IH, Hin.
Qed.

Lemma changeNickname_spec_witness :
  prop bob_joins "nickname" = Normal (VStr "Bob")
  /\ isSet (VStr "Bob") = true
  /\ client_nickname (fst (changeNickname 1 bob_joins stale_last)) 1 = VStr "Bob".
Proof.
  split; [ reflexivity | split; [ reflexivity | ] ].
  apply (proj2 (changeNickname_spec stale_last 1 bob_joins (VStr "Bob") eq_refl) eq_refl).
Defined.

(** C10 as stated fails where it says that the chat of a non-member is
    broadcast to all current members: connection 5 is not in the registry
    [1; 0], its chat is accepted, and the closed member 0 is sent nothing. *)
Lemma non_member_chat_counterexample :
  (5 ∉ clients stale_last)
  /\ prop says_hi "message" = Normal (VStr "hi")
  /\ isSet (VStr "hi") = true
  /\ ~ (forall m, m ∈ clients stale_last ->
          inbox m (sent (fst (sendChat 5 says_hi stale_last))) <> []).
Proof.
  split; [ | split; [ reflexivity | split; [ reflexivity | ] ] ].
  - intros H. apply elem_of_cons in H as [H | H]; [ discriminate | ].
    apply list_elem_of_singleton in H. discriminate.
  - intros H. apply (H 0); [ apply elem_of_cons; right; constructor | reflexivity ].
Qed.

Lemma chat_text_name (now : Z) (message : value) :
  isSet message = true ->
  json_get "data" (chat_text now VUndef message false) ≫= json_get "name" = None.
Proof.
  intros Hm. destruct (JSON_stringify_isSet message Hm) as [jm Ejm].
  unfold chat_text, stringify_object, stringify_props. simpl. rewrite Ejm. reflexivity.
Qed.

(** C10 (amended).  Neither handler looks the connection up in the
    registry.  For a connection that is not a member, a [sendChat] with a
    set message is broadcast over the registry with the name read from the
    connection (undefined, and then absent from the text, while no nickname
    was assigned), and a [changeNickname] with a set nickname assigns it and
    broadcasts nicknameChange with the previous name as [oldNickname]
    (undefined, and absent from the text, while none was assigned).  The
    copies go to members with an open channel, to every member when all are
    open; nothing at all is sent to the non-member. *)
Theorem non_member_accepted (s : state) (client : conn) (data v : value) :
  client ∉ clients s ->
  isSet v = true ->
  let rs := readyState s in
  let name := client_nickname s client in
  (prop data "message" = Normal v ->
   sendChat client data s
   = (after_pass s (kept rs (clients s))
        (map (fun r => (r, chat_text (clock s) name v false)) (reached rs (clients s))),
      Normal tt)
   /\ inbox client (sent (fst (sendChat client data s))) = inbox client (sent s))
  /\ (prop data "nickname" = Normal v ->
      changeNickname client data s
      = (after_pass (with_nickname (<[client := v]> (nickname s)) s) (kept rs (clients s))
           (map (fun r => (r, plain_text (rename_envelope name v))) (reached rs (clients s))),
         Normal tt)
      /\ client_nickname (fst (changeNickname client data s)) client = v
      /\ inbox client (sent (fst (changeNickname client data s))) = inbox client (sent s))
  /\ (nickname s !! client = None ->
      name = VUndef
      /\ json_get "data" (chat_text (clock s) name v false) ≫= json_get "name" = None
      /\ json_get "oldNickname" (plain_text (rename_envelope name v)) = None)
  /\ (forall r, r ∈ reached rs (clients s) -> r ∈ clients s /\ is_open (rs r) = true)
  /\ (all_open s -> kept rs (clients s) = clients s /\ reached rs (clients s) = clients s).
Proof.
  intros H Hv rs name.
  assert (Hr : client ∉ reached rs (clients s)) by (apply not_reached, H).
  split; [ | split; [ | split; [ | split ] ] ].
  - intros Hp.
    assert (Hc : sendChat client data s
                 = (after_pass s (kept rs (clients s))
                      (map (fun r => (r, chat_text (clock s) name v false))
                           (reached rs (clients s))),
                    Normal tt)).
    { rewrite (sendChat_broadcast s client data v Hp Hv), broadcast_chat.
      fold rs. fold name. f_equal. f_equal. apply map_ext_in. intros r Hin.
      apply list_elem_of_In in Hin.
      destruct (Nat.eqb r client) eqn:E; [ | reflexivity ].
      apply Nat.eqb_eq in E. subst r. contradiction. }
    split; [ exact Hc | ].
    rewrite Hc. simpl. rewrite inbox_app.
    rewrite (inbox_map_other client (fun _ => chat_text (clock s) name v false)) by exact Hr.
    apply app_nil_r.
  - intros Hp.
    pose proof (changeNickname_pass s client data v Hp Hv) as Hc.
    split; [ exact Hc | ].
    split; [ rewrite Hc; unfold client_nickname; simpl; rewrite lookup_insert_eq;
             reflexivity | ].
    rewrite Hc. simpl. rewrite inbox_app.
    rewrite (inbox_map_other client (fun _ => plain_text (rename_envelope name v)))
      by exact Hr.
    apply app_nil_r.
  - intros Hnone. assert (Hname : name = VUndef).
    { unfold name, client_nickname. rewrite Hnone. reflexivity. }
    rewrite Hname. split; [ reflexivity | ].
    split; [ apply chat_text_name, Hv | ].
    destruct (JSON_stringify_isSet v Hv) as [jv Ejv].
    unfold plain_text, rename_envelope, stringify_object, stringify_props. simpl.
    rewrite Ejv. reflexivity.
  - intros r Hin. apply (reached_elem _ _ _ Hin).
  - intros Ho. split; [ apply kept_all_open | apply reached_all_open ]; exact Ho.
Qed.

Lemma non_member_accepted_witness :
  (5 ∉ clients stale_last)
  /\ isSet (VStr "hi") = true
  /\ inbox 5 (sent (fst (sendChat 5 says_hi stale_last))) = inbox 5 (sent stale_last).
Proof.
  assert (H : 5 ∉ clients stale_last).
  { intros H. apply elem_of_cons in H as [H | H]; [ discriminate | ].
    apply list_elem_of_singleton in H. discriminate. }
  split; [ exact H | split; [ reflexivity | ] ].
  apply (proj1 (non_member_accepted stale_last 5 says_hi (VStr "hi") H eq_refl) eq_refl).
Defined.

(** ** C4: the dispatcher *)

Lemma wsFunctionsMap_registered :
  wsFunctionsMap_get (VStr "joinChat") = Some joinChat
  /\ wsFunctionsMap_get (VStr "leaveChat") = Some (fun client _ => leaveChat client)
  /\ wsFunctionsMap_get (VStr "sendChat") = Some sendChat
  /\ wsFunctionsMap_get (VStr "changeNickname") = Some changeNickname.
Proof. repeat split. Qed.

Lemma wsFunctionsMap_unregistered (action : value) :
  wsFunctionsMap_get action = None
  <-> forall name, name ∈ action_names -> action <> VStr name.
Proof.
  split.
  - intros H name Hin ->. unfold action_names in Hin.
    repeat (apply elem_of_cons in Hin as [-> | Hin]; [ discriminate H | ]).
    inversion Hin.
  - intros H. destruct action as [ | | b | n | name | l | o ]; try reflexivity.
    unfold wsFunctionsMap_get, wsFunctions. simpl.
    destruct (String.eqb_spec name "joinChat") as [-> | _].
    { exfalso. apply (H "joinChat"); [ | reflexivity ]. repeat constructor. }
    destruct (String.eqb_spec name "leaveChat") as [-> | _].
    { exfalso. apply (H "leaveChat"); [ | reflexivity ]. repeat constructor. }
    destruct (String.eqb_spec name "sendChat") as [-> | _].
    { exfalso. apply (H "sendChat"); [ | reflexivity ]. repeat constructor. }
    destruct (String.eqb_spec name "changeNickname") as [-> | _].
    { exfalso. apply (H "changeNickname"); [ | reflexivity ]. repeat constructor. }
    reflexivity.
Qed.

Lemma incomingMessage_cases (s : state) (client : conn) (data action : value) :
  prop data "action" = Normal action ->
  (action = VUndef \/ action = VNull ->
   incomingMessage client data s = replied s client "action is missing")
  /\ (isSet action = true -> wsFunctionsMap_get action = None ->
      incomingMessage client data s = replied s client "No such action")
  /\ (forall f, isSet action = true -> wsFunctionsMap_get action = Some f ->
      incomingMessage client data s = f client data s).
Proof.
  intros Hp. unfold incomingMessage. run. rewrite Hp. simpl.
  split; [ | split ].
  - intros Ha. apply isSet_false in Ha. rewrite Ha. reflexivity.
  - intros Ha Hf. rewrite Ha, Hf. reflexivity.
  - intros f Ha Hf. rewrite Ha, Hf. reflexivity.
Qed.

Section Dispatch.

Variable isJSON : string -> bool.
Variable JSON_parse : string -> outcome value.

(** C4.  A raw text that is not JSON is answered with "Invalid JSON
    format" and nothing else happens.  For a parsed request whose [action]
    can be read: if it is undefined or null the answer is "action is
    missing"; if it is set but no handler is registered under it (it is not
    one of the four names) the answer is "No such action"; otherwise the
    dispatcher does exactly what the handler found under that name does on
    the connection and the request.  Each answer is one text to the
    connection, with the registry and the nicknames untouched. *)
Theorem wsMessage_dispatch (s : state) (client : conn) (raw : string) :
  (isJSON raw = false ->
   wsMessage isJSON JSON_parse (Request raw client) s
   = replied s client "Invalid JSON format")
  /\ (forall data action,
        isJSON raw = true ->
        JSON_parse raw = Normal data ->
        prop data "action" = Normal action ->
        (action = VUndef \/ action = VNull ->
         wsMessage isJSON JSON_parse (Request raw client) s
         = replied s client "action is missing")
        /\ (isSet action = true ->
            (forall name, name ∈ action_names -> action <> VStr name) ->
            wsMessage isJSON JSON_parse (Request raw client) s
            = replied s client "No such action")
        /\ (forall f,
              isSet action = true ->
              wsFunctionsMap_get action = Some f ->
              wsMessage isJSON JSON_parse (Request raw client) s = f client data s))
  /\ (wsFunctionsMap_get (VStr "joinChat") = Some joinChat
      /\ wsFunctionsMap_get (VStr "leaveChat") = Some (fun client _ => leaveChat client)
      /\ wsFunctionsMap_get (VStr "sendChat") = Some sendChat
      /\ wsFunctionsMap_get (VStr "changeNickname") = Some changeNickname)
  /\ (forall error,
        clients (fst (replied s client error)) = clients s
        /\ nickname (fst (replied s client error)) = nickname s
        /\ sent (fst (replied s client error)) = sent s ++ [(client, error_reply error)]
        /\ error_reply error = JObj [("error", JStr error)]
        /\ snd (replied s client error) = Normal tt).
Proof.
  split; [ | split; [ | split ] ].
  - intros H. unfold wsMessage. simpl. rewrite H. reflexivity.
  - intros data action Hj Hd Hp.
    assert (Hw : wsMessage isJSON JSON_parse (Request raw client) s
                 = incomingMessage client data s).
    { unfold wsMessage. simpl. rewrite Hj. run. rewrite Hd. reflexivity. }
    rewrite Hw.
    destruct (incomingMessage_cases s client data action Hp) as (H1 & H2 & H3).
    split; [ exact H1 | ]. split; [ | exact H3 ].
    intros Ha Hn. apply H2; [ exact Ha | ]. apply wsFunctionsMap_unregistered, Hn.
  - apply wsFunctionsMap_registered.
  - intros error. apply replied_effect.
Qed.

End Dispatch.

Lemma wsMessage_dispatch_witness :
  sample_isJSON "hello" = false
  /\ wsMessage sample_isJSON sample_parse (Request "hello" 3) stale_first
     = replied stale_first 3 "Invalid JSON format".
Proof.
  split; [ reflexivity | ].
  apply (proj1 (wsMessage_dispatch sample_isJSON sample_parse stale_first 3 "hello")).
  reflexivity.
Defined.

(** The bogus action of the specification's example: one reply, registry
    as before. *)
Example bogus_action :
  wsMessage sample_isJSON sample_parse (Request "bogus" 3) stale_first
  = replied stale_first 3 "No such action".
Proof. reflexivity. Qed.

(** ** C6: the registry invariant *)

Lemma evicts_refl (rs : conn -> ReadyState) (l : list conn) : evicts rs l l.
Proof. split; [ reflexivity | auto ]. Qed.

Lemma evicts_trans (rs : conn -> ReadyState) (l1 l2 l3 : list conn) :
  evicts rs l1 l2 -> evicts rs l2 l3 -> evicts rs l1 l3.
Proof.
  intros [S1 O1] [S2 O2]. split; [ etransitivity; eassumption | ].
  intros c Hc Ho. apply O2; [ apply O1 | ]; assumption.
Qed.

Lemma kept_evicts (rs : conn -> ReadyState) (l : list conn) : evicts rs l (kept rs l).
Proof. split; [ apply kept_sublist | intros c; apply kept_open_elem ]. Qed.

Lemma delete_other (l : list conn) (i : nat) (c x : conn) :
  l !! i = Some c -> x ∈ l -> x <> c -> x ∈ delete i l.
Proof.
  intros Hi Hx Hne. rewrite delete_take_drop.
  rewrite <- (take_drop_middle l i c Hi) in Hx.
  apply elem_of_app in Hx as [Hx | Hx]; [ apply elem_of_app; left; exact Hx | ].
  apply elem_of_cons in Hx as [-> | Hx]; [ congruence | ].
  apply elem_of_app. right. exact Hx.
Qed.

Lemma delete_closed_evicts (rs : conn -> ReadyState) (l : list conn) (i : nat) (c : conn) :
  l !! i = Some c -> is_open (rs c) = false -> evicts rs l (delete i l).
Proof.
  intros Hi Hc. split; [ apply sublist_delete | ].
  intros x Hx Ho. apply (delete_other l i c x Hi Hx). congruence.
Qed.

(** Whatever the envelope, and also when a copy cannot be made and the pass
    stops with an exception: the pass only removes clients that are not
    open and leaves readyState alone. *)
Lemma forEach_from_evicts (data : envelope) (n : nat) :
  forall (k : nat) (s : state),
    evicts (readyState s) (clients s)
      (clients (fst (forEach_from n k (broadcast_callback data) s)))
    /\ readyState (fst (forEach_from n k (broadcast_callback data) s)) = readyState s.
Proof.
  induction n as [ | n IH ]; intros k s; simpl.
  - split; [ apply evicts_refl | reflexivity ].
  - destruct (clients s !! k) as [c | ] eqn:Hk; [ | apply IH ].
    unfold broadcast_callback at 1 3. run.
    destruct (targeted_copy data c) as [di | e]; simpl.
    + destruct (is_open (readyState s c)) eqn:Ho; simpl.
      * apply (IH (S k) (with_sent (sent s ++ [(c, stringify_object di)]) s)).
      * destruct (IH (S k) (with_clients (delete k (clients s)) s)) as [He Hr].
        simpl in He, Hr. split; [ | exact Hr ].
        eapply evicts_trans; [ apply (delete_closed_evicts _ _ _ _ Hk Ho) | exact He ].
    + split; [ apply evicts_refl | reflexivity ].
Qed.

Lemma broadcast_evicts (data : envelope) (s : state) :
  evicts (readyState s) (clients s) (clients (fst (broadcast data s))).
Proof.
  unfold broadcast. run.
  destruct (0 <? length (clients s))%nat; [ | apply evicts_refl ].
  apply forEach_from_evicts.
Qed.

Lemma evicts_NoDup (rs : conn -> ReadyState) (l l' : list conn) :
  evicts rs l l' -> NoDup l -> NoDup l'.
Proof. intros [Hs _] Hnd. eapply sublist_NoDup; eassumption. Qed.

Lemma evicts_elem (rs : conn -> ReadyState) (l l' : list conn) (c : conn) :
  evicts rs l l' -> c ∈ l' -> c ∈ l.
Proof. intros [Hs _] Hc. eapply elem_of_sublist; eassumption. Qed.

Lemma evicts_closed (rs : conn -> ReadyState) (l l' : list conn) (c : conn) :
  evicts rs l l' -> c ∈ l -> c ∉ l' -> is_open (rs c) = false.
Proof.
  intros [_ Ho] Hc Hn. destruct (is_open (rs c)) eqn:E; [ | reflexivity ].
  exfalso. apply Hn, Ho; assumption.
Qed.

(** The registry after each handler, as a list evicted from a base list. *)
Lemma joinChat_registry (s : state) (client : conn) (data : value) :
  clients (fst (joinChat client data s)) = clients s
  \/ (joins (OpJoin client data) s client
      /\ exists l, evicts (readyState s) (clients s) l
                   /\ clients (fst (joinChat client data s)) = l ++ [client]).
Proof.
  destruct (indexOf client (clients s)) as [i | ] eqn:E.
  - left. unfold joinChat. run. rewrite E. reflexivity.
  - pose proof E as Hc. apply indexOf_None in Hc.
    destruct (prop data "nickname") as [nick | e] eqn:Hp.
    + destruct (isSet nick) eqn:Hn.
      * right. split; [ split; [ reflexivity | split; [ exact Hc | eauto ] ] | ].
        exists (kept (readyState s) (clients s)). split; [ apply kept_evicts | ].
        rewrite (joinChat_joined s client data nick Hc Hp Hn).
        destruct (ToString nick); reflexivity.
      * left. rewrite (joinChat_unnamed s client data nick Hc Hp Hn). reflexivity.
    + left. unfold joinChat. run. rewrite E, Hp. reflexivity.
Qed.

Lemma leaveChat_registry (s : state) (client : conn) :
  NoDup (clients s) ->
((client ∉ clients s) /\ fst (leaveChat client s) = s)
  \/ (exists i,
        clients s !! i = Some client
        /\ (client ∉ delete i (clients s))
        /\ evicts (readyState s) (delete i (clients s))
             (clients (fst (leaveChat client s)))).
Proof.
  intros Hnd. destruct (indexOf client (clients s)) as [i | ] eqn:E.
  - right. exists i. destruct (indexOf_Some _ _ _ E) as [Hi _].
    split; [ exact Hi | ]. split; [ apply delete_indexOf_gone; assumption | ].
    rewrite (leaveChat_member s client i E).
    apply (broadcast_evicts _ (with_clients (delete i (clients s)) s)).
  - left. apply indexOf_None in E. split; [ exact E | ].
    rewrite leaveChat_absent by exact E. reflexivity.
Qed.

Lemma sendChat_registry (s : state) (client : conn) (data : value) :
  evicts (readyState s) (clients s) (clients (fst (sendChat client data s))).
Proof.
  unfold sendChat. run.
  destruct (prop data "message") as [message | e]; simpl; [ | apply evicts_refl ].
  destruct (isSet message); simpl; [ | apply evicts_refl ].
  apply broadcast_evicts.
Qed.

Lemma changeNickname_registry (s : state) (client : conn) (data : value) :
  evicts (readyState s) (clients s) (clients (fst (changeNickname client data s))).
Proof.
  unfold changeNickname. run.
  destruct (prop data "nickname") as [nick | e]; simpl; [ | apply evicts_refl ].
  destruct (isSet nick); simpl; [ | apply evicts_refl ].
  apply (broadcast_evicts _ (with_nickname (<[client := nick]> (nickname s)) s)).
Qed.

Lemma leave_invariant (s : state) (client : conn) :
  NoDup (clients s) ->
  let s' := fst (leaveChat client s) in
  NoDup (clients s')
  /\ (forall c, c ∈ clients s' -> c ∈ clients s)
  /\ (forall c, c ∈ clients s -> c ∉ clients s' ->
        c = client \/ is_open (readyState s c) = false)
  /\ (client ∉ clients s').
Proof.
  intros Hnd s'. subst s'.
  destruct (leaveChat_registry s client Hnd) as [[Ha ->] | (i & Hi & Hg & He)].
  - split; [ exact Hnd | ]. split; [ auto | ]. split; [ | exact Ha ].
    intros c Hc Hn. contradiction.
  - assert (Hd : NoDup (delete i (clients s)))
      by (eapply sublist_NoDup; [ exact Hnd | apply sublist_delete ]).
    split; [ apply (evicts_NoDup _ _ _ He Hd) | ].
    split; [ | split ].
    + intros c Hc. apply (evicts_elem _ _ _ _ He) in Hc.
      eapply elem_of_sublist; [ exact Hc | apply sublist_delete ].
    + intros c Hc Hn. destruct (Nat.eq_dec c client) as [-> | Hne]; [ left; reflexivity | ].
      right. apply (evicts_closed _ _ _ _ He); [ | exact Hn ].
      apply (delete_other _ i client c Hi Hc Hne).
    + intros Hc. apply Hg. apply (evicts_elem _ _ _ _ He Hc).
Qed.

Lemma evicts_invariant (rs : conn -> ReadyState) (l l' : list conn) :
  evicts rs l l' ->
  NoDup l ->
  NoDup l'
  /\ (forall c, c ∈ l' -> c ∈ l)
  /\ (forall c, c ∈ l -> c ∉ l' -> is_open (rs c) = false).
Proof.
  intros He Hnd. split; [ apply (evicts_NoDup _ _ _ He Hnd) | ].
  split; intros c; [ apply (evicts_elem _ _ _ _ He) | apply (evicts_closed _ _ _ _ He) ].
Qed.

Lemma perform_NoDup (op : operation) (s : state) :
  NoDup (clients s) -> NoDup (clients (fst (perform op s))).
Proof.
  intros Hnd.
  destruct op as [client data | client | client data | client data | data | client]; simpl.
  - destruct (joinChat_registry s client data) as [-> | [Hj (l & He & ->)]]; [ exact Hnd | ].
    destruct Hj as (_ & Hc & _).
    apply NoDup_app. split; [ apply (evicts_NoDup _ _ _ He Hnd) | ].
    split; [ | apply NoDup_singleton ].
    intros x Hx Hx'. apply list_elem_of_singleton in Hx'. subst x.
    apply Hc. apply (evicts_elem _ _ _ _ He Hx).
  - apply (leave_invariant s client Hnd).
  - apply (evicts_NoDup _ _ _ (sendChat_registry s client data) Hnd).
  - apply (evicts_NoDup _ _ _ (changeNickname_registry s client data) Hnd).
  - apply (evicts_NoDup _ _ _ (broadcast_evicts data s) Hnd).
  - apply (leave_invariant s client Hnd).
Qed.

(** C6.  Every operation keeps the registry free of repetition.  A
    connection is in the registry afterwards only if it was there before or
    the operation is its own [joinChat] passing both checks; a connection is
    gone afterwards only if the operation is its own leave or close, or its
    channel was not open (it was removed by a broadcast pass); and after its
    own leave or close a connection is not in the registry, so that a
    second removal finds nothing to remove. *)
Theorem registry_invariant (op : operation) (s : state) :
  NoDup (clients s) ->
  let s' := fst (perform op s) in
  NoDup (clients s')
  /\ (forall c, c ∈ clients s' -> c ∈ clients s \/ joins op s c)
  /\ (forall c, c ∈ clients s -> c ∉ clients s' ->
        leaves op c \/ is_open (readyState s c) = false)
  /\ (forall c, leaves op c -> c ∉ clients s').
Proof.
  intros Hnd s'. subst s'.
  destruct op as [client data | client | client data | client data | data | client]; simpl.
  - destruct (joinChat_registry s client data) as [-> | [Hj (l & He & ->)]].
    + split; [ exact Hnd | ]. split; [ auto | ]. split; [ | intros c [] ].
      intros c Hc Hn. contradiction.
    + destruct (evicts_invariant _ _ _ He Hnd) as (H1 & H2 & H3).
      pose proof Hj as Hj0. destruct Hj as (_ & Hc & _).
      split; [ | split; [ | split; [ | intros c [] ] ] ].
      * apply NoDup_app. split; [ exact H1 | ]. split; [ | apply NoDup_singleton ].
        intros x Hx Hx'. apply list_elem_of_singleton in Hx'. subst x. apply Hc, H2, Hx.
      * intros c Hin. apply elem_of_app in Hin as [Hin | Hin]; [ left; apply H2, Hin | ].
        apply list_elem_of_singleton in Hin. subst c. right. exact Hj0.
      * intros c Hin Hn. right. apply H3; [ exact Hin | ].
        intros Hl. apply Hn. apply elem_of_app. left. exact Hl.
  - destruct (leave_invariant s client Hnd) as (H1 & H2 & H3 & H4).
    split; [ exact H1 | ]. split; [ auto | ]. split; [ exact H3 | ].
    intros c ->. exact H4.
  - destruct (evicts_invariant _ _ _ (sendChat_registry s client data) Hnd) as (H1 & H2 & H3).
    split; [ exact H1 | ]. split; [ auto | ]. split; [ auto | intros c [] ].
  - destruct (evicts_invariant _ _ _ (changeNickname_registry s client data) Hnd)
      as (H1 & H2 & H3).
    split; [ exact H1 | ]. split; [ auto | ]. split; [ auto | intros c [] ].
  - destruct (evicts_invariant _ _ _ (broadcast_evicts data s) Hnd) as (H1 & H2 & H3).
    split; [ exact H1 | ]. split; [ auto | ]. split; [ auto | intros c [] ].
  - destruct (leave_invariant s client Hnd) as (H1 & H2 & H3 & H4).
    split; [ exact H1 | ]. split; [ auto | ]. split; [ exact H3 | ].
    intros c ->. exact H4.
Qed.

Lemma stale_first_NoDup : NoDup (clients stale_first).
Proof.
  apply NoDup_cons. split.
  - intros H. apply list_elem_of_singleton in H. discriminate.
  - apply NoDup_singleton.
Qed.

Lemma registry_invariant_witness :
  NoDup (clients stale_first)
  /\ NoDup (clients (fst (perform (OpLeave 1) stale_first))).
Proof.
  split; [ apply stale_first_NoDup | ].
  apply (registry_invariant (OpLeave 1) stale_first stale_first_NoDup).
Defined.

(** The invariant along every run of the server: whatever texts arrive,
    whichever connections close and however the transport changes the
    channels in between, the registry built from the empty one never holds a
    connection twice. *)
Section Runs.

Variable isJSON : string -> bool.
Variable JSON_parse : string -> outcome value.

Lemma registered_handler (action : value) (f : handler) (client : conn) (data : value) :
  wsFunctionsMap_get action = Some f ->
  exists op, f client data = perform op.
Proof.
  destruct action as [ | | b | n | name | l | o ]; try discriminate.
  unfold wsFunctionsMap_get, wsFunctions. simpl.
  destruct (String.eqb name "joinChat").
  { intros [= <-]. exists (OpJoin client data). reflexivity. }
  destruct (String.eqb name "leaveChat").
  { intros [= <-]. exists (OpLeave client). reflexivity. }
  destruct (String.eqb name "sendChat").
  { intros [= <-]. exists (OpSend client data). reflexivity. }
  destruct (String.eqb name "changeNickname").
  { intros [= <-]. exists (OpRename client data). reflexivity. }
  discriminate.
Qed.

Lemma incomingMessage_NoDup (client : conn) (data : value) (s : state) :
  NoDup (clients s) -> NoDup (clients (fst (incomingMessage client data s))).
Proof.
  intros Hnd. unfold incomingMessage. run.
  destruct (prop data "action") as [action | e]; simpl; [ | exact Hnd ].
  destruct (isSet action); simpl; [ | exact Hnd ].
  destruct (wsFunctionsMap_get action) as [f | ] eqn:Hf; simpl; [ | exact Hnd ].
  destruct (registered_handler action f client data Hf) as [op ->].
  apply (perform_NoDup op s Hnd).
Qed.

Lemma handle_NoDup (ev : event) (s : state) :
  NoDup (clients s) -> NoDup (clients (handle isJSON JSON_parse ev s)).
Proof.
  intros Hnd. destruct ev as [client raw | client | rs now ]; simpl.
  - unfold wsMessage. simpl. destruct (isJSON raw); [ | exact Hnd ].
    run. destruct (JSON_parse raw) as [data | e]; simpl; [ | exact Hnd ].
    apply incomingMessage_NoDup, Hnd.
  - apply (perform_NoDup (OpClose client) s Hnd).
  - exact Hnd.
Qed.

(** X17.  Along every run from the empty registry, whatever the events,
    no connection is in the registry twice. *)
Theorem registry_along_runs (evs : list event) (rs : conn -> ReadyState) (now : Z) :
  NoDup (clients (foldl (fun s ev => handle isJSON JSON_parse ev s) (initial rs now) evs)).
Proof.
  assert (H : NoDup (clients (initial rs now))) by apply NoDup_nil_2.
  revert H. generalize (initial rs now). induction evs as [ | ev evs IH ]; intros s Hs.
  - exact Hs.
  - simpl. apply IH, handle_NoDup, Hs.
Qed.

End Runs.

(** ** The scenario of the specification

    A joins as Alice, B joins as Bob, B says hi, A's channel closes. *)

Example scenario :
  let A := 0 in
  let B := 1 in
  let s0 := initial (fun _ => OPEN) 100 in
  let s1 := fst (joinChat A (VObj [("nickname", VStr "Alice")]) s0) in
  let s2 := fst (joinChat B (VObj [("nickname", VStr "Bob")]) s1) in
  let s3 := fst (sendChat B (VObj [("message", VStr "hi")]) s2) in
  let s4 := fst (wsClose A (State (clients s3) (nickname s3) only_1_open 101 (sent s3))) in
  clients s1 = [A]
  /\ clients s2 = [A; B]
  /\ inbox A (sent s2)
     = [welcome_text (VStr "Alice") "Alice"; plain_text (join_envelope (VStr "Bob"))]
  /\ inbox A (sent s3)
     = inbox A (sent s2) ++ [chat_text 100 (VStr "Bob") (VStr "hi") false]
  /\ inbox B (sent s3)
     = [welcome_text (VStr "Bob") "Bob"; chat_text 100 (VStr "Bob") (VStr "hi") true]
  /\ clients s4 = [B]
  /\ inbox B (sent s4)
     = inbox B (sent s3) ++ [plain_text (leave_envelope (VStr "Alice"))].
Proof. vm_compute. repeat split. Qed.

(** * Further properties of the code *)

(** ** The listening port *)

Section Port.

Variable isJSON : string -> bool.
Variable JSON_parse : string -> outcome value.

(** X1.  The port is 80 whenever the configuration file does not supply
    one: when there is no file, when the file is not JSON, and when the
    parsed configuration has no [wsPort] or one that [||] steps over
    (undefined, null, false, 0 or the empty string). *)
Theorem wsPort_default (file : option string) :
  (file = None -> wsPort isJSON JSON_parse file = Normal (VNum 80))
  /\ (forall text, file = Some text -> isJSON text = false ->
        wsPort isJSON JSON_parse file = Normal (VNum 80))
  /\ (forall text config port,
        file = Some text -> isJSON text = true ->
        JSON_parse text = Normal config ->
        prop config "wsPort" = Normal port ->
        port = VUndef \/ port = VNull \/ port = VBool false
        \/ port = VNum 0 \/ port = VStr "" ->
        wsPort isJSON JSON_parse file = Normal (VNum 80)).
Proof.
  split; [ intros ->; reflexivity | ].
  split.
  - intros text -> H. unfold wsPort, load_config. rewrite H. reflexivity.
  - intros text config port -> Hj Hc Hp Hf.
    unfold wsPort, load_config. rewrite Hj, Hc, Hp.
    destruct Hf as [-> | [-> | [-> | [-> | ->]]]]; reflexivity.
Qed.

(** X2.  A port that is resolved is never one that [||] steps over, so
    never 0 and never the empty string; and it is either the default 80 or,
    unchanged and of whatever type it has, the [wsPort] member of the parsed
    configuration file. *)
Theorem wsPort_resolved (file : option string) (port : value) :
  wsPort isJSON JSON_parse file = Normal port ->
  truthy port = true
  /\ (port = VNum 80
      \/ exists text config,
           file = Some text /\ isJSON text = true
           /\ JSON_parse text = Normal config
           /\ prop config "wsPort" = Normal port).
Proof.
  unfold wsPort, load_config. intros H.
  assert (Hd : truthy (VNum 80) = true /\ (VNum 80 = VNum 80 \/
            exists text config, file = Some text /\ isJSON text = true
              /\ JSON_parse text = Normal config
              /\ prop config "wsPort" = Normal (VNum 80)))
    by (split; [ reflexivity | left; reflexivity ]).
  destruct file as [text | ].
  - destruct (isJSON text) eqn:Hj.
    + destruct (JSON_parse text) as [config | e] eqn:Hc; [ | discriminate ].
      destruct (prop config "wsPort") as [p | e] eqn:Hp; [ | discriminate ].
      destruct (truthy p) eqn:Ht; injection H as <-; [ | exact Hd ].
      split; [ exact Ht | ]. right. exists text, config. auto.
    + simpl in H. injection H as <-. exact Hd.
  - simpl in H. injection H as <-. exact Hd.
Qed.

End Port.

Lemma wsPort_default_witness :
  wsPort null_isJSON null_parse None = Normal (VNum 80).
Proof. apply (proj1 (wsPort_default null_isJSON null_parse None)). reflexivity. Defined.

Lemma wsPort_resolved_witness :
  wsPort sample_isJSON sample_parse (Some "{}") = Normal (VNum 80)
  /\ truthy (VNum 80) = true.
Proof.
  split; [ reflexivity | ].
  apply (wsPort_resolved sample_isJSON sample_parse (Some "{}") (VNum 80)).
  reflexivity.
Defined.

(** ** The Map built by [init] *)

Lemma obj_get_absent {A : Type} (k : string) (l : list (string * A)) :
  k ∉ l.*1 -> obj_get k l = None.
Proof.
  induction l as [ | [k' v] l IH ]; simpl; intros H; [ reflexivity | ].
  apply not_elem_of_cons in H as [Hne Hl].
  destruct (String.eqb_spec k k') as [-> | _]; [ congruence | apply IH, Hl ].
Qed.

Lemma foldl_set_lookup {A : Type} (l : list (string * A)) :
  NoDup l.*1 ->
  forall (m : gmap string A) (k : string),
    foldl (fun m func => <[fst func := snd func]> m) m l !! k
    = match obj_get k l with
      | Some v => Some v
      | None => m !! k
      end.
Proof.
  induction l as [ | [k' v] l IH ]; simpl; intros Hnd m k; [ reflexivity | ].
  apply NoDup_cons in Hnd as [Hk' Hnd]. rewrite (IH Hnd).
  destruct (String.eqb_spec k k') as [-> | Hne].
  - rewrite (obj_get_absent k' l Hk'). apply lookup_insert_eq.
  - destruct (obj_get k l); [ reflexivity | ].
    apply lookup_insert_ne. congruence.
Qed.

Lemma wsFunctions_names : wsFunctions.*1 = action_names.
Proof. reflexivity. Qed.

Lemma action_names_NoDup : NoDup action_names.
Proof.
  unfold action_names.
  repeat (apply NoDup_cons; split;
          [ intros H; repeat (apply elem_of_cons in H as [H | H]; [ discriminate | ]);
            inversion H | ]).
  apply NoDup_nil_2.
Qed.

(** X3.  After [init] the Map answers for every key what the dispatcher is
    modelled to find: looking a string up in [wsFunctionsMap] gives the
    function stored under that property of [wsFunctions], and the keys of
    the Map are exactly joinChat, leaveChat, sendChat and changeNickname
    (exact, case-sensitive strings). *)
Theorem wsFunctionsMap_lookup (name : string) :
  wsFunctionsMap !! name = wsFunctionsMap_get (VStr name)
  /\ (is_Some (wsFunctionsMap !! name) <-> name ∈ action_names).
Proof.
  assert (H : wsFunctionsMap !! name = obj_get name wsFunctions).
  { unfold wsFunctionsMap. rewrite foldl_set_lookup.
    - rewrite lookup_empty. destruct (obj_get name wsFunctions); reflexivity.
    - rewrite wsFunctions_names. apply action_names_NoDup. }
  split; [ exact H | ].
  rewrite H. split.
  - intros [f Hf]. destruct (decide (name ∈ action_names)) as [Hin | Hout]; [ exact Hin | ].
    rewrite <- wsFunctions_names in Hout.
    rewrite (obj_get_absent name wsFunctions Hout) in Hf. discriminate.
  - unfold action_names. intros Hin.
    repeat (apply elem_of_cons in Hin as [-> | Hin]; [ eexists; reflexivity | ]).
    inversion Hin.
Qed.

(** ** More about one pass, and about passes in a row *)

Lemma broadcast_sound_witness :
  (forall c, targeted_copy (join_envelope (VStr "Bob")) c
             = Normal (plain_instance (join_envelope (VStr "Bob")) c))
  /\ exists l out,
       broadcast (join_envelope (VStr "Bob")) stale_first
       = (after_pass stale_first l
            (map (wire (plain_instance (join_envelope (VStr "Bob")))) out), Normal tt)
       /\ l `sublist_of` clients stale_first.
Proof.
  split; [ reflexivity | ].
  destruct (broadcast_sound (join_envelope (VStr "Bob"))
              (plain_instance (join_envelope (VStr "Bob"))) stale_first
              (fun c => eq_refl)) as (l & out & H1 & H2 & _).
  exists l, out. split; assumption.
Defined.

Lemma kept_length rs l :
  length (kept rs l) <= length l
  /\ (length (kept rs l) = length l -> Forall (fun c => is_open (rs c) = true) l).
Proof.
  induction l as [ | x | x y l IH1 IH2 ] using list_pair_ind; simpl.
  - split; [ lia | constructor ].
  - destruct (is_open (rs x)) eqn:E; simpl.
    + split; [ lia | ]. intros _. repeat constructor. exact E.
    + split; [ lia | discriminate ].
  - destruct IH1 as [L1 _]. destruct IH2 as [L2 F2]. simpl in L2, F2.
    destruct (is_open (rs x)) eqn:E; simpl.
    + split; [ lia | ]. intros H. constructor; [ exact E | apply F2; lia ].
    + split; [ lia | ]. intros H. exfalso. lia.
Qed.

Lemma kept_fixed rs l :
  kept rs l = l <-> Forall (fun c => is_open (rs c) = true) l.
Proof.
  split; [ | apply kept_all_open ].
  intros H. apply (kept_length rs l). rewrite H. reflexivity.
Qed.

Lemma open_members_kept rs l : open_members rs (kept rs l) = open_members rs l.
Proof.
  unfold open_members.
  induction l as [ | x | x y l IH1 IH2 ] using list_pair_ind; simpl.
  - reflexivity.
  - destruct (is_open (rs x)) eqn:E; simpl; rewrite ?E; reflexivity.
  - destruct (is_open (rs x)) eqn:E; simpl; rewrite ?E.
    + simpl in IH2. rewrite IH2. reflexivity.
    + rewrite IH1. reflexivity.
Qed.

Lemma open_members_all rs l :
  Forall (fun c => is_open (rs c) = true) l -> open_members rs l = l.
Proof.
  unfold open_members. induction 1 as [ | x l Hx _ IH ]; simpl; [ reflexivity | ].
  rewrite Hx, IH. reflexivity.
Qed.

Lemma open_members_open rs l :
  Forall (fun c => is_open (rs c) = true) (open_members rs l).
Proof.
  unfold open_members. induction l as [ | x l IH ]; simpl; [ constructor | ].
  destruct (is_open (rs x)) eqn:E; [ constructor; assumption | exact IH ].
Qed.

Lemma skipped_at_most_evicted rs l :
  length (open_members rs l) + length (kept rs l)
  <= length (reached rs l) + length l.
Proof.
  unfold open_members.
  induction l as [ | x | x y l IH1 IH2 ] using list_pair_ind; simpl.
  - lia.
  - destruct (is_open (rs x)); simpl; lia.
  - simpl in IH2. destruct (is_open (rs x)); simpl.
    + destruct (is_open (rs y)); simpl in *; lia.
    + destruct (is_open (rs y)); simpl in *; lia.
Qed.

Lemma pass_open_prefix rs l1 l2 :
  Forall (fun c => is_open (rs c) = true) l1 ->
  kept rs (l1 ++ l2) = l1 ++ kept rs l2
  /\ reached rs (l1 ++ l2) = l1 ++ reached rs l2.
Proof.
  induction 1 as [ | x l Hx _ [IH1 IH2] ]; simpl; [ split; reflexivity | ].
  rewrite Hx, IH1, IH2. split; reflexivity.
Qed.

Section Passes.

Variable data : envelope.
Variable instance : conn -> list (string * value).
Hypothesis copy_ok : forall c, targeted_copy data c = Normal (instance c).

(** X5.  A pass leaves the registry as it was exactly when every member is
    open: with a closed member in the registry a broadcast always removes
    at least one connection. *)
Theorem broadcast_fixed (s : state) :
  (clients (fst (broadcast data s)) = clients s <-> all_open s)
  /\ (~ all_open s -> length (clients (fst (broadcast data s))) < length (clients s)).
Proof.
  rewrite (broadcast_pass data instance copy_ok s). simpl. split.
  - apply kept_fixed.
  - intros Hn. destruct (kept_length (readyState s) (clients s)) as [Hle Heq].
    destruct (Nat.eq_dec (length (kept (readyState s) (clients s))) (length (clients s)))
      as [E | E]; [ | lia ].
    exfalso. apply Hn, Heq, E.
Qed.

(** X6.  In one pass the open members that are not sent their copy are at
    most as many as the members the pass removes: the number of open
    members plus the size of the registry after the pass is at most the
    number of texts sent plus the size of the registry before. *)
Theorem broadcast_skips_bounded (s : state) :
  length (open_members (readyState s) (clients s))
  + length (clients (fst (broadcast data s)))
  + length (sent s)
  <= length (sent (fst (broadcast data s))) + length (clients s).
Proof.
  rewrite (broadcast_pass data instance copy_ok s). simpl.
  rewrite length_app, length_map.
  pose proof (skipped_at_most_evicted (readyState s) (clients s)). lia.
Qed.

(** X7.  The members that stand before the first closed one are always
    served: if the registry is [l1 ++ l2] with every member of [l1] open,
    the pass first sends each member of [l1] its copy, in order, keeps all
    of [l1], and goes on as it would on [l2] alone. *)
Theorem broadcast_open_prefix (s : state) (l1 l2 : list conn) :
  clients s = l1 ++ l2 ->
  Forall (fun c => is_open (readyState s c) = true) l1 ->
  broadcast data s
  = (after_pass s (l1 ++ kept (readyState s) l2)
       (map (wire instance) l1 ++ map (wire instance) (reached (readyState s) l2)),
     Normal tt).
Proof.
  intros Hl Ho. rewrite (broadcast_pass data instance copy_ok s). rewrite Hl.
  destruct (pass_open_prefix (readyState s) l1 l2 Ho) as [-> ->].
  rewrite map_app. reflexivity.
Qed.

Lemma broadcasts_all_open (n : nat) :
  forall s, all_open s ->
    clients (broadcasts n data s) = clients s
    /\ readyState (broadcasts n data s) = readyState s.
Proof.
  induction n as [ | n IH ]; intros s Ho; simpl; [ split; reflexivity | ].
  rewrite (broadcast_pass data instance copy_ok s). simpl.
  assert (Hk : kept (readyState s) (clients s) = clients s) by (apply kept_all_open, Ho).
  destruct (IH (after_pass s (kept (readyState s) (clients s))
                  (map (wire instance) (reached (readyState s) (clients s)))))
    as [H1 H2].
  - unfold all_open. simpl. rewrite Hk. exact Ho.
  - rewrite H1, H2. simpl. split; [ exact Hk | reflexivity ].
Qed.

Lemma broadcasts_pruned (n : nat) :
  forall s, length (clients s) <= n ->
    clients (broadcasts n data s) = open_members (readyState s) (clients s)
    /\ readyState (broadcasts n data s) = readyState s.
Proof.
  induction n as [ | n IH ]; intros s Hlen.
  - simpl. destruct (clients s); [ split; reflexivity | simpl in Hlen; lia ].
  - destruct (decide (all_open s)) as [Ho | Hn].
    + destruct (broadcasts_all_open (S n) s Ho) as [H1 H2].
      rewrite H1, H2. split; [ | reflexivity ].
      symmetry. apply open_members_all, Ho.
    + simpl. rewrite (broadcast_pass data instance copy_ok s). cbn [fst].
      assert (Hlt : length (kept (readyState s) (clients s)) < length (clients s)).
      { destruct (kept_length (readyState s) (clients s)) as [Hle Heq].
        destruct (Nat.eq_dec (length (kept (readyState s) (clients s)))
                    (length (clients s))) as [E | E]; [ | lia ].
        exfalso. apply Hn, Heq, E. }
      destruct (IH (after_pass s (kept (readyState s) (clients s))
                      (map (wire instance) (reached (readyState s) (clients s)))))
        as [H1 H2]; [ simpl; lia | ].
      rewrite H1, H2. simpl. split; [ apply open_members_kept | reflexivity ].
Qed.

(** X8.  Closed members do not stay for ever: after as many broadcasts in
    a row as the registry has members (with the channels unchanged in
    between), the registry is exactly the open members of the original
    one, in their order, and every member left is open. *)
Theorem broadcasts_prune (n : nat) (s : state) :
  length (clients s) <= n ->
  clients (broadcasts n data s) = open_members (readyState s) (clients s)
  /\ all_open (broadcasts n data s).
Proof.
  intros Hlen. destruct (broadcasts_pruned n s Hlen) as [H1 H2].
  split; [ exact H1 | ]. unfold all_open. rewrite H1, H2. apply open_members_open.
Qed.

End Passes.

Lemma broadcast_fixed_witness :
  (forall c, targeted_copy (join_envelope (VStr "Bob")) c
             = Normal (plain_instance (join_envelope (VStr "Bob")) c))
  /\ (clients (fst (broadcast (join_envelope (VStr "Bob")) two_open)) = clients two_open
      <-> all_open two_open).
Proof.
  split; [ reflexivity | ].
  apply (broadcast_fixed (join_envelope (VStr "Bob"))
           (plain_instance (join_envelope (VStr "Bob"))) (fun c => eq_refl) two_open).
Defined.

Lemma broadcast_skips_bounded_witness :
  (forall c, targeted_copy (join_envelope (VStr "Bob")) c
             = Normal (plain_instance (join_envelope (VStr "Bob")) c))
  /\ length (open_members (readyState stale_first) (clients stale_first))
     + length (clients (fst (broadcast (join_envelope (VStr "Bob")) stale_first)))
     + length (sent stale_first)
     <= length (sent (fst (broadcast (join_envelope (VStr "Bob")) stale_first)))
        + length (clients stale_first).
Proof.
  split; [ reflexivity | ].
  apply (broadcast_skips_bounded (join_envelope (VStr "Bob"))
           (plain_instance (join_envelope (VStr "Bob"))) (fun c => eq_refl) stale_first).
Defined.

Lemma broadcast_open_prefix_witness :
  (forall c, targeted_copy (join_envelope (VStr "Bob")) c
             = Normal (plain_instance (join_envelope (VStr "Bob")) c))
  /\ clients stale_last = [1] ++ [0]
  /\ Forall (fun c => is_open (readyState stale_last c) = true) [1]
  /\ sent (fst (broadcast (join_envelope (VStr "Bob")) stale_last))
     = [(1, plain_text (join_envelope (VStr "Bob")))].
Proof.
  assert (Ho : Forall (fun c => is_open (readyState stale_last c) = true) [1])
    by (repeat constructor).
  split; [ reflexivity | split; [ reflexivity | split; [ exact Ho | ] ] ].
  rewrite (broadcast_open_prefix (join_envelope (VStr "Bob"))
             (plain_instance (join_envelope (VStr "Bob"))) (fun c => eq_refl)
             stale_last [1] [0] eq_refl Ho).
  reflexivity.
Defined.

Lemma broadcasts_prune_witness :
  (forall c, targeted_copy (join_envelope (VStr "Bob")) c
             = Normal (plain_instance (join_envelope (VStr "Bob")) c))
  /\ length (clients stale_pair) <= 2
  /\ clients (broadcasts 2 (join_envelope (VStr "Bob")) stale_pair) = [].
Proof.
  split; [ reflexivity | split; [ simpl; lia | ] ].
  apply (broadcasts_prune (join_envelope (VStr "Bob"))
           (plain_instance (join_envelope (VStr "Bob"))) (fun c => eq_refl) 2 stale_pair).
  simpl. lia.
Defined.

(** ** The handlers, beyond the paths looked at so far *)

(** X9.  A [sendChat] whose message is undefined or null is answered with
    "message is missing" and has no other effect: no broadcast, the
    registry and the nicknames as before. *)
Theorem sendChat_missing (s : state) (client : conn) (data message : value) :
  prop data "message" = Normal message ->
  message = VUndef \/ message = VNull ->
  sendChat client data s = replied s client "message is missing"
  /\ clients (fst (sendChat client data s)) = clients s
  /\ nickname (fst (sendChat client data s)) = nickname s
  /\ sent (fst (sendChat client data s))
     = sent s ++ [(client, JObj [("error", JStr "message is missing")])].
Proof.
  intros Hp Hm. apply isSet_false in Hm.
  assert (H : sendChat client data s = replied s client "message is missing").
  { unfold sendChat. run. rewrite Hp. simpl. rewrite Hm. reflexivity. }
  rewrite H. repeat split.
Qed.

Lemma sendChat_missing_witness :
  prop (VObj []) "message" = Normal VUndef
  /\ (VUndef = VUndef \/ VUndef = VNull)
  /\ sendChat 1 (VObj []) two_open = replied two_open 1 "message is missing".
Proof.
  split; [ reflexivity | split; [ left; reflexivity | ] ].
  apply (sendChat_missing two_open 1 (VObj []) VUndef eq_refl (or_introl eq_refl)).
Defined.

Lemma indexOf_member (c : conn) (l : list conn) :
  c ∈ l -> exists i, indexOf c l = Some i.
Proof.
  intros H. destruct (indexOf c l) as [i | ] eqn:E; [ eauto | ].
  apply indexOf_None in E. contradiction.
Qed.

(** X10.  When a member leaves (or its channel closes) the handler returns
    normally; the connection is spliced out at the index where it stands and
    clientLeave with the nickname it carried is broadcast over the rest of
    the registry.  The leaving connection is sent nothing, and its nickname
    stays assigned to it: no nickname is changed by a leave. *)
Theorem leaveChat_leaves (s : state) (client : conn) :
  client ∈ clients s ->
  NoDup (clients s) ->
  exists i,
    clients s !! i = Some client
    /\ leaveChat client s
       = (after_pass (with_clients (delete i (clients s)) s)
            (kept (readyState s) (delete i (clients s)))
            (map (fun r => (r, plain_text (leave_envelope (client_nickname s client))))
                 (reached (readyState s) (delete i (clients s)))),
          Normal tt)
    /\ wsClose client s = leaveChat client s
    /\ inbox client (sent (fst (leaveChat client s))) = inbox client (sent s)
    /\ nickname (fst (leaveChat client s)) = nickname s.
Proof.
  intros Hin Hnd. destruct (indexOf_member client (clients s) Hin) as [i Hi].
  exists i. destruct (indexOf_Some _ _ _ Hi) as [Hl _].
  assert (H : leaveChat client s
              = (after_pass (with_clients (delete i (clients s)) s)
                   (kept (readyState s) (delete i (clients s)))
                   (map (fun r => (r, plain_text (leave_envelope (client_nickname s client))))
                        (reached (readyState s) (delete i (clients s)))),
                 Normal tt)).
  { rewrite (leaveChat_member s client i Hi).
    unfold leave_envelope. rewrite broadcast_plain by reflexivity. reflexivity. }
  split; [ exact Hl | ]. split; [ exact H | ]. split; [ reflexivity | ].
  rewrite H. simpl. split; [ | reflexivity ].
  rewrite inbox_app.
  rewrite (inbox_map_other client
             (fun _ => plain_text (leave_envelope (client_nickname s client)))).
  - apply app_nil_r.
  - apply not_reached. apply delete_indexOf_gone; assumption.
Qed.

Lemma leaveChat_leaves_witness :
  (1 ∈ clients two_open)
  /\ NoDup (clients two_open)
  /\ exists i, clients two_open !! i = Some 1
               /\ nickname (fst (leaveChat 1 two_open)) = nickname two_open.
Proof.
  assert (H1 : 1 ∈ clients two_open) by (apply elem_of_cons; right; constructor).
  assert (H2 : NoDup (clients two_open)).
  { apply NoDup_cons. split; [ | apply NoDup_singleton ].
    intros H. apply list_elem_of_singleton in H. discriminate. }
  split; [ exact H1 | split; [ exact H2 | ] ].
  destruct (leaveChat_leaves two_open 1 H1 H2) as (i & Hi & _ & _ & _ & Hn).
  exists i. split; assumption.
Defined.

(** X11.  A connection that has just joined cannot join again: the second
    [joinChat], whatever it asks for, is answered with "Client already
    joined" and leaves the nickname given at the first join. *)
Theorem joinChat_twice (s : state) (client : conn) (data1 data2 nick : value) :
  client ∉ clients s ->
  prop data1 "nickname" = Normal nick ->
  isSet nick = true ->
  let s1 := fst (joinChat client data1 s) in
  joinChat client data2 s1 = replied s1 client "Client already joined"
  /\ client_nickname (fst (joinChat client data2 s1)) client = nick
  /\ clients (fst (joinChat client data2 s1)) = clients s1.
Proof.
  intros H Hp Hn s1.
  assert (Hs1 : client ∈ clients s1 /\ client_nickname s1 client = nick).
  { unfold s1. rewrite (joinChat_joined s client data1 nick H Hp Hn).
    unfold client_nickname.
    destruct (ToString nick); simpl; rewrite lookup_insert_eq;
      (split; [ apply elem_of_app; right; constructor | reflexivity ]). }
  destruct Hs1 as [Hin Hnick].
  rewrite (joinChat_member s1 client data2 Hin).
  split; [ reflexivity | ]. split; [ exact Hnick | reflexivity ].
Qed.

Lemma joinChat_twice_witness :
  (1 ∉ clients stale_only)
  /\ prop bob_joins "nickname" = Normal (VStr "Bob")
  /\ isSet (VStr "Bob") = true
  /\ joinChat 1 says_hi (fst (joinChat 1 bob_joins stale_only))
     = replied (fst (joinChat 1 bob_joins stale_only)) 1 "Client already joined".
Proof.
  assert (H : 1 ∉ clients stale_only).
  { intros H. apply list_elem_of_singleton in H. discriminate. }
  split; [ exact H | split; [ reflexivity | split; [ reflexivity | ] ] ].
  apply (joinChat_twice stale_only 1 bob_joins says_hi (VStr "Bob") H eq_refl eq_refl).
Defined.

(** X12.  A chat sent after a rename carries the new name: every copy that
    [sendChat] sends from the state left by [changeNickname] has the
    nickname just assigned as its name, whether the connection is a member
    or not. *)
Theorem rename_then_send (s : state) (client : conn)
    (data1 data2 nick message : value) :
  prop data1 "nickname" = Normal nick ->
  isSet nick = true ->
  prop data2 "message" = Normal message ->
  isSet message = true ->
  let s1 := fst (changeNickname client data1 s) in
  sendChat client data2 s1
  = (after_pass s1 (kept (readyState s) (clients s1))
       (map (fun r => (r, chat_text (clock s) nick message (Nat.eqb r client)))
            (reached (readyState s) (clients s1))),
     Normal tt).
Proof.
  intros Hp Hn Hq Hm s1.
  assert (Hs1 : client_nickname s1 client = nick
                /\ clock s1 = clock s /\ readyState s1 = readyState s).
  { unfold s1. rewrite (changeNickname_pass s client data1 nick Hp Hn).
    unfold client_nickname. simpl. rewrite lookup_insert_eq. repeat split. }
  destruct Hs1 as (H1 & H2 & H3).
  rewrite (sendChat_broadcast s1 client data2 message Hq Hm), broadcast_chat.
  rewrite H1, H2, H3. reflexivity.
Qed.

Lemma rename_then_send_witness :
  prop bob_joins "nickname" = Normal (VStr "Bob")
  /\ isSet (VStr "Bob") = true
  /\ prop says_hi "message" = Normal (VStr "hi")
  /\ isSet (VStr "hi") = true
  /\ inbox 0 (sent (fst (sendChat 1 says_hi (fst (changeNickname 1 bob_joins two_open)))))
     = [plain_text (rename_envelope VUndef (VStr "Bob"));
        chat_text 7 (VStr "Bob") (VStr "hi") false].
Proof.
  repeat (split; [ reflexivity | ]).
  rewrite (rename_then_send two_open 1 bob_joins says_hi (VStr "Bob") (VStr "hi")
             eq_refl eq_refl eq_refl eq_refl).
  reflexivity.
Defined.

Lemma isSet_JSON_value (j : json) : isSet (JSON_value j) = true <-> j <> JNull.
Proof. destruct j; simpl; split; intros H; congruence. Qed.

Lemma chat_text_content (now : Z) (name : value) (j : json) (me : bool) :
  json_get "action" (chat_text now name (JSON_value j) me) = Some (JStr "incomingChat")
  /\ json_get "data" (chat_text now name (JSON_value j) me) ≫= json_get "content"
     = Some j.
Proof.
  unfold chat_text, stringify_object, stringify_props. simpl.
  rewrite JSON_stringify_value.
  destruct (JSON_stringify name); destruct me; simpl; split; reflexivity.
Qed.

(** X13.  The relay does not alter what a client says: when the message of
    a [sendChat] is what [JSON.parse] reads from the JSON text [j], a text
    other than null that is read exactly (its integers within 2^53, the
    members of its objects distinct and not named by digits), every text
    sent in answer is an incomingChat whose [data.content] is [j] again. *)
Theorem sendChat_verbatim (s : state) (client : conn) (data : value) (j : json) :
  plain_json j = true ->
  prop data "message" = Normal (JSON_value j) ->
  j <> JNull ->
  exists out,
    sent (fst (sendChat client data s)) = sent s ++ out
    /\ Forall (fun m => json_get "action" (snd m) = Some (JStr "incomingChat")
                        /\ json_get "data" (snd m) ≫= json_get "content" = Some j) out.
Proof.
  intros _ Hp Hj. apply isSet_JSON_value in Hj.
  rewrite (sendChat_broadcast s client data (JSON_value j) Hp Hj), broadcast_chat.
  eexists. split; [ reflexivity | ].
  apply Forall_forall. intros m Hm. apply list_elem_of_fmap in Hm as (r & -> & _).
  apply chat_text_content.
Qed.

Lemma sendChat_verbatim_witness :
  plain_json (JStr "hi") = true
  /\ prop says_hi "message" = Normal (JSON_value (JStr "hi"))
  /\ JStr "hi" <> JNull
  /\ exists out, sent (fst (sendChat 1 says_hi two_open)) = sent two_open ++ out.
Proof.
  assert (H : JStr "hi" <> JNull) by discriminate.
  split; [ reflexivity | split; [ reflexivity | split; [ exact H | ] ] ].
  destruct (sendChat_verbatim two_open 1 says_hi (JStr "hi") eq_refl eq_refl H)
    as (out & Ho & _).
  exists out. exact Ho.
Defined.

(** ** What an operation touches *)

Lemma forEach_from_effect (data : envelope) (n : nat) :
  forall (k : nat) (s : state),
    nickname (fst (forEach_from n k (broadcast_callback data) s)) = nickname s
    /\ clock (fst (forEach_from n k (broadcast_callback data) s)) = clock s
    /\ exists out,
         sent (fst (forEach_from n k (broadcast_callback data) s)) = sent s ++ out
         /\ Forall (fun m => fst m ∈ clients s
                             /\ is_open (readyState s (fst m)) = true) out.
Proof.
  induction n as [ | n IH ]; intros k s; simpl.
  - split; [ reflexivity | split; [ reflexivity | ] ].
    exists []. split; [ symmetry; apply app_nil_r | constructor ].
  - destruct (clients s !! k) as [c | ] eqn:Hk; [ | apply IH ].
    unfold broadcast_callback at 1 3 5. run.
    destruct (targeted_copy data c) as [di | e]; simpl.
    + destruct (is_open (readyState s c)) eqn:Ho; simpl.
      * destruct (IH (S k) (with_sent (sent s ++ [(c, stringify_object di)]) s))
          as (H1 & H2 & out & H3 & H4).
        split; [ exact H1 | split; [ exact H2 | ] ].
        exists ((c, stringify_object di) :: out). split.
        -- rewrite H3. simpl. rewrite <- app_assoc. reflexivity.
        -- constructor; [ | exact H4 ]. simpl. split; [ | exact Ho ].
           apply list_elem_of_lookup. eauto.
      * destruct (IH (S k) (with_clients (delete k (clients s)) s))
          as (H1 & H2 & out & H3 & H4).
        split; [ exact H1 | split; [ exact H2 | ] ].
        exists out. split; [ exact H3 | ].
        eapply Forall_impl; [ exact H4 | ]. simpl. intros m [Hm Hom].
        split; [ | exact Hom ].
        eapply elem_of_sublist; [ exact Hm | apply sublist_delete ].
    + split; [ reflexivity | split; [ reflexivity | ] ].
      exists []. split; [ symmetry; apply app_nil_r | constructor ].
Qed.

Lemma broadcast_effect (data : envelope) (s : state) :
  nickname (fst (broadcast data s)) = nickname s
  /\ clock (fst (broadcast data s)) = clock s
  /\ readyState (fst (broadcast data s)) = readyState s
  /\ exists out,
       sent (fst (broadcast data s)) = sent s ++ out
       /\ Forall (fun m => fst m ∈ clients s
                           /\ is_open (readyState s (fst m)) = true) out.
Proof.
  unfold broadcast. run.
  destruct (0 <? length (clients s))%nat.
  - unfold clients_forEach.
    destruct (forEach_from_effect data (length (clients s)) 0 s) as (H1 & H2 & H3).
    destruct (forEach_from_evicts data (length (clients s)) 0 s) as [_ H4].
    auto.
  - simpl. repeat split. exists []. split; [ symmetry; apply app_nil_r | constructor ].
Qed.

Lemma reached_recipients {A : Type} (rs : conn -> ReadyState) (l : list conn)
    (f : conn -> A) :
  Forall (fun m : conn * A => fst m ∈ l /\ is_open (rs (fst m)) = true)
    (map (fun r => (r, f r)) (reached rs l)).
Proof.
  apply Forall_forall. intros m Hm. apply list_elem_of_fmap in Hm as (r & -> & Hr).
  simpl. apply (reached_elem rs l r Hr).
Qed.

(** The effect of one operation, in one statement for the theorems below. *)
Lemma perform_effect (op : operation) (s : state) :
  readyState (fst (perform op s)) = readyState s
  /\ clock (fst (perform op s)) = clock s
  /\ (exists out,
        sent (fst (perform op s)) = sent s ++ out
        /\ Forall (fun m => actor op = Some (fst m)
                            \/ (fst m ∈ clients s
                                /\ is_open (readyState s (fst m)) = true)) out)
  /\ (nickname (fst (perform op s)) = nickname s
      \/ exists client v,
           names_itself op client /\ isSet v = true
           /\ nickname (fst (perform op s)) = <[client := v]> (nickname s))
  /\ (forall c, c ∈ clients (fst (perform op s)) ->
        c ∈ clients s \/ isSet (client_nickname (fst (perform op s)) c) = true).
Proof.
  assert (Hsame : forall out : list (conn * json),
            Forall (fun m => fst m ∈ clients s /\ is_open (readyState s (fst m)) = true) out ->
            Forall (fun m => actor op = Some (fst m)
                             \/ (fst m ∈ clients s
                                 /\ is_open (readyState s (fst m)) = true)) out).
  { intros out H. eapply Forall_impl; [ exact H | ]. auto. }
  assert (Hreply : forall client error,
            actor op = Some client ->
            readyState (fst (replied s client error)) = readyState s
            /\ clock (fst (replied s client error)) = clock s
            /\ (exists out,
                  sent (fst (replied s client error)) = sent s ++ out
                  /\ Forall (fun m => actor op = Some (fst m)
                                      \/ (fst m ∈ clients s
                                          /\ is_open (readyState s (fst m)) = true)) out)
            /\ (nickname (fst (replied s client error)) = nickname s
                \/ exists client' v,
                     names_itself op client' /\ isSet v = true
                     /\ nickname (fst (replied s client error))
                        = <[client' := v]> (nickname s))
            /\ (forall c, c ∈ clients (fst (replied s client error)) ->
                  c ∈ clients s
                  \/ isSet (client_nickname (fst (replied s client error)) c) = true)).
  { intros client error Ha. simpl. repeat split; auto.
    eexists. split; [ reflexivity | ].
    constructor; [ left; exact Ha | constructor ]. }
  assert (Hnone : readyState s = readyState s
            /\ clock s = clock s
            /\ (exists out,
                  sent s = sent s ++ out
                  /\ Forall (fun m => actor op = Some (fst m)
                                      \/ (fst m ∈ clients s
                                          /\ is_open (readyState s (fst m)) = true)) out)
            /\ (nickname s = nickname s
                \/ exists client' v,
                     names_itself op client' /\ isSet v = true
                     /\ nickname s = <[client' := v]> (nickname s))
            /\ (forall c, c ∈ clients s ->
                  c ∈ clients s \/ isSet (client_nickname s c) = true)).
  { repeat split; auto. exists []. split; [ symmetry; apply app_nil_r | constructor ]. }
  destruct op as [client data | client | client data | client data | data | client];
    simpl perform.
  - (* joinChat *)
    destruct (indexOf client (clients s)) as [i | ] eqn:E.
    + assert (Hin : client ∈ clients s).
      { destruct (indexOf_Some _ _ _ E) as [Hl _]. apply list_elem_of_lookup. eauto. }
      rewrite (joinChat_member s client data Hin). apply Hreply. reflexivity.
    + pose proof E as Hc. apply indexOf_None in Hc.
      destruct (prop data "nickname") as [nick | e] eqn:Hp.
      * destruct (isSet nick) eqn:Hn.
        -- rewrite (joinChat_joined s client data nick Hc Hp Hn).
           assert (Hw : forall w : list (conn * json),
                     Forall (fun m => actor (OpJoin client data) = Some (fst m)
                                      \/ (fst m ∈ clients s
                                          /\ is_open (readyState s (fst m)) = true)) w ->
                     Forall (fun m => actor (OpJoin client data) = Some (fst m)
                                      \/ (fst m ∈ clients s
                                          /\ is_open (readyState s (fst m)) = true))
                       (map (fun r => (r, plain_text (join_envelope nick)))
                            (reached (readyState s) (clients s)) ++ w)).
           { intros w Hwf. apply Forall_app. split; [ | exact Hwf ].
             eapply Forall_impl; [ apply reached_recipients | ]. auto. }
           destruct (ToString nick) as [text | ]; simpl;
             (split; [ reflexivity | split; [ reflexivity | ] ]);
             (split; [ | split ]).
           ++ exists (map (fun r => (r, plain_text (join_envelope nick)))
                          (reached (readyState s) (clients s))
                      ++ [(client, welcome_text nick text)]).
              split; [ rewrite <- app_assoc; reflexivity | ].
              apply Hw. repeat constructor.
           ++ right. exists client, nick. repeat split. exact Hn.
           ++ intros c Hin. apply elem_of_app in Hin as [Hin | Hin].
              ** left. apply (kept_elem _ _ _ Hin).
              ** apply list_elem_of_singleton in Hin. subst c. right.
                 unfold client_nickname. simpl. rewrite lookup_insert_eq. exact Hn.
           ++ exists (map (fun r => (r, plain_text (join_envelope nick)))
                          (reached (readyState s) (clients s)) ++ []).
              split; [ rewrite app_nil_r; reflexivity | ].
              apply Hw. constructor.
           ++ right. exists client, nick. repeat split. exact Hn.
           ++ intros c Hin. apply elem_of_app in Hin as [Hin | Hin].
              ** left. apply (kept_elem _ _ _ Hin).
              ** apply list_elem_of_singleton in Hin. subst c. right.
                 unfold client_nickname. simpl. rewrite lookup_insert_eq. exact Hn.
        -- rewrite (joinChat_unnamed s client data nick Hc Hp Hn). apply Hreply. reflexivity.
      * assert (Hj : joinChat client data s = (s, Throw e))
          by (unfold joinChat; run; rewrite E, Hp; reflexivity).
        rewrite Hj. exact Hnone.
  - (* leaveChat *)
    destruct (indexOf client (clients s)) as [i | ] eqn:E.
    + rewrite (leaveChat_member s client i E).
      unfold leave_envelope. rewrite broadcast_plain by reflexivity. simpl.
      split; [ reflexivity | split; [ reflexivity | ] ]. split; [ | split ].
      * eexists. split; [ reflexivity | ]. apply Hsame.
        eapply Forall_impl; [ apply reached_recipients | ]. simpl.
        intros m [Hm Hom]. split; [ | exact Hom ].
        eapply elem_of_sublist; [ exact Hm | apply sublist_delete ].
      * left. reflexivity.
      * intros c Hin. left. apply kept_elem in Hin.
        eapply elem_of_sublist; [ exact Hin | apply sublist_delete ].
    + apply indexOf_None in E. rewrite (leaveChat_absent s client E). exact Hnone.
  - (* sendChat *)
    destruct (prop data "message") as [message | e] eqn:Hp.
    + destruct (isSet message) eqn:Hm.
      * rewrite (sendChat_broadcast s client data message Hp Hm), broadcast_chat. simpl.
        split; [ reflexivity | split; [ reflexivity | ] ]. split; [ | split ].
        -- eexists. split; [ reflexivity | ]. apply Hsame.
           apply (reached_recipients (readyState s) (clients s)
                    (fun r => chat_text (clock s) (client_nickname s client) message
                                (Nat.eqb r client))).
        -- left. reflexivity.
        -- intros c Hin. left. apply (kept_elem _ _ _ Hin).
      * assert (Hs : sendChat client data s = replied s client "message is missing")
          by (unfold sendChat; run; rewrite Hp; simpl; rewrite Hm; reflexivity).
        rewrite Hs. apply Hreply. reflexivity.
    + assert (Hs : sendChat client data s = (s, Throw e))
        by (unfold sendChat; run; rewrite Hp; reflexivity).
      rewrite Hs. exact Hnone.
  - (* changeNickname *)
    destruct (prop data "nickname") as [nick | e] eqn:Hp.
    + destruct (isSet nick) eqn:Hn.
      * rewrite (changeNickname_pass s client data nick Hp Hn). simpl.
        split; [ reflexivity | split; [ reflexivity | ] ]. split; [ | split ].
        -- eexists. split; [ reflexivity | ]. apply Hsame.
           apply (reached_recipients (readyState s) (clients s)
                    (fun _ => plain_text (rename_envelope (client_nickname s client) nick))).
        -- right. exists client, nick. repeat split. exact Hn.
        -- intros c Hin. left. apply (kept_elem _ _ _ Hin).
      * rewrite (changeNickname_unnamed s client data nick Hp Hn). apply Hreply. reflexivity.
    + assert (Hs : changeNickname client data s = (s, Throw e))
        by (unfold changeNickname; run; rewrite Hp; reflexivity).
      rewrite Hs. exact Hnone.
  - (* broadcast *)
    destruct (broadcast_effect data s) as (H1 & H2 & H3 & out & H4 & H5).
    split; [ exact H3 | split; [ exact H2 | ] ]. split; [ | split ].
    + exists out. split; [ exact H4 | apply Hsame, H5 ].
    + left. exact H1.
    + intros c Hin. left. apply (evicts_elem _ _ _ _ (broadcast_evicts data s) Hin).
  - (* wsClose *)
    unfold wsClose.
    destruct (indexOf client (clients s)) as [i | ] eqn:E.
    + rewrite (leaveChat_member s client i E).
      unfold leave_envelope. rewrite broadcast_plain by reflexivity. simpl.
      split; [ reflexivity | split; [ reflexivity | ] ]. split; [ | split ].
      * eexists. split; [ reflexivity | ]. apply Hsame.
        eapply Forall_impl; [ apply reached_recipients | ]. simpl.
        intros m [Hm Hom]. split; [ | exact Hom ].
        eapply elem_of_sublist; [ exact Hm | apply sublist_delete ].
      * left. reflexivity.
      * intros c Hin. left. apply kept_elem in Hin.
        eapply elem_of_sublist; [ exact Hin | apply sublist_delete ].
    + apply indexOf_None in E. rewrite (leaveChat_absent s client E). exact Hnone.
Qed.

(** X14.  Nothing is ever sent to a bystander: every text an operation
    sends goes either to the connection the handler acts for (an error
    reply, the welcome, its own copy) or to a connection that was in the
    registry with an open channel when the operation began; and the texts
    sent before stay in the log. *)
Theorem perform_recipients (op : operation) (s : state) :
  exists out,
    sent (fst (perform op s)) = sent s ++ out
    /\ Forall (fun m => actor op = Some (fst m)
                        \/ (fst m ∈ clients s
                            /\ is_open (readyState s (fst m)) = true)) out.
Proof. apply (perform_effect op s). Qed.

(** X15.  A handler can change no nickname but that of the connection it
    acts for, and only [joinChat] and [changeNickname] do so, to a value
    that is neither undefined nor null; a leave, a close, a chat or a bare
    broadcast changes none.  The channels' readyState is never written. *)
Theorem perform_nicknames (op : operation) (s : state) (c : conn) :
  (names_itself op c
   \/ nickname (fst (perform op s)) !! c = nickname s !! c)
  /\ (nickname (fst (perform op s)) !! c <> nickname s !! c ->
      isSet (client_nickname (fst (perform op s)) c) = true)
  /\ readyState (fst (perform op s)) = readyState s.
Proof.
  destruct (perform_effect op s) as (Hr & _ & _ & Hn & _).
  split; [ | split; [ | exact Hr ] ].
  - destruct Hn as [-> | (client & v & Hc & _ & ->)]; [ right; reflexivity | ].
    destruct (Nat.eq_dec client c) as [<- | Hne]; [ left; exact Hc | ].
    right. apply lookup_insert_ne. exact Hne.
  - unfold client_nickname.
    destruct Hn as [-> | (client & v & _ & Hv & ->)]; [ congruence | ].
    destruct (Nat.eq_dec client c) as [<- | Hne].
    + rewrite lookup_insert_eq. intros _. exact Hv.
    + rewrite lookup_insert_ne by exact Hne. congruence.
Qed.

Lemma perform_named (op : operation) (s : state) :
  members_named s -> members_named (fst (perform op s)).
Proof.
  intros Hm c Hin.
  destruct (perform_effect op s) as (_ & _ & _ & Hn & Hc).
  destruct (Hc c Hin) as [Hold | Hset]; [ | exact Hset ].
  specialize (Hm c Hold). unfold client_nickname in *.
  destruct Hn as [-> | (client & v & _ & Hv & ->)]; [ exact Hm | ].
  destruct (Nat.eq_dec client c) as [<- | Hne].
  - rewrite lookup_insert_eq. exact Hv.
  - rewrite lookup_insert_ne by exact Hne. exact Hm.
Qed.

Section Named.

Variable isJSON : string -> bool.
Variable JSON_parse : string -> outcome value.

Lemma incomingMessage_named (client : conn) (data : value) (s : state) :
  members_named s -> members_named (fst (incomingMessage client data s)).
Proof.
  intros Hm. unfold incomingMessage. run.
  destruct (prop data "action") as [action | e]; simpl; [ | exact Hm ].
  destruct (isSet action); simpl; [ | exact Hm ].
  destruct (wsFunctionsMap_get action) as [f | ] eqn:Hf; simpl; [ | exact Hm ].
  destruct (registered_handler action f client data Hf) as [op ->].
  apply (perform_named op s Hm).
Qed.

Lemma handle_named (ev : event) (s : state) :
  members_named s -> members_named (handle isJSON JSON_parse ev s).
Proof.
  intros Hm. destruct ev as [client raw | client | rs now ]; simpl.
  - unfold wsMessage. simpl. destruct (isJSON raw); [ | exact Hm ].
    run. destruct (JSON_parse raw) as [data | e]; simpl; [ | exact Hm ].
    apply incomingMessage_named, Hm.
  - apply (perform_named (OpClose client) s Hm).
  - exact Hm.
Qed.

(** X16.  Along every run from the empty registry every member carries a
    nickname that is neither undefined nor null: a connection enters the
    registry only with the nickname of its join, and no handler ever
    unsets one. *)
Theorem members_named_along_runs (evs : list event) (rs : conn -> ReadyState) (now : Z) :
  members_named (foldl (fun s ev => handle isJSON JSON_parse ev s) (initial rs now) evs).
Proof.
  assert (H : members_named (initial rs now)).
  { intros c Hc. inversion Hc. }
  revert H. generalize (initial rs now). induction evs as [ | ev evs IH ]; intros s Hs.
  - exact Hs.
  - simpl. apply IH, handle_named, Hs.
Qed.

End Named.

(** ** When a request makes the server throw *)

Lemma prop_other (data a : value) (k1 k2 : string) :
  prop data k1 = Normal a -> exists v, prop data k2 = Normal v.
Proof. destruct data; simpl; intros H; try discriminate; eauto. Qed.

Lemma handler_throws (s : state) (client : conn) (data action : value)
    (f : handler) (e : exn) :
  prop data "action" = Normal action ->
  wsFunctionsMap_get action = Some f ->
  snd (f client data s) = Throw e ->
  e = TypeError
  /\ action = VStr "joinChat"
  /\ (client ∉ clients s)
  /\ exists nick, prop data "nickname" = Normal nick
                  /\ isSet nick = true /\ ToString nick = None.
Proof.
  intros Hp Hf.
  destruct action as [ | | b | n | name | l | o ]; try discriminate.
  unfold wsFunctionsMap_get, wsFunctions in Hf. simpl in Hf.
  destruct (String.eqb_spec name "joinChat") as [-> | _].
  { injection Hf as <-.
    destruct (indexOf client (clients s)) as [i | ] eqn:E.
    - assert (Hin : client ∈ clients s).
      { destruct (indexOf_Some _ _ _ E) as [Hl _]. apply list_elem_of_lookup. eauto. }
      rewrite (joinChat_member s client data Hin). discriminate.
    - apply indexOf_None in E.
      destruct (prop_other data _ "action" "nickname" Hp) as [nick Hn].
      destruct (isSet nick) eqn:Hs.
      + rewrite (joinChat_joined s client data nick E Hn Hs).
        destruct (ToString nick) eqn:Ht; simpl; [ discriminate | ].
        intros [= <-]. repeat split; [ exact E | eauto ].
      + rewrite (joinChat_unnamed s client data nick E Hn Hs). discriminate. }
  destruct (String.eqb_spec name "leaveChat") as [-> | _].
  { injection Hf as <-.
    destruct (indexOf client (clients s)) as [i | ] eqn:E.
    - rewrite (leaveChat_member s client i E).
      unfold leave_envelope. rewrite broadcast_plain by reflexivity. discriminate.
    - apply indexOf_None in E. rewrite (leaveChat_absent s client E). discriminate. }
  destruct (String.eqb_spec name "sendChat") as [-> | _].
  { injection Hf as <-.
    destruct (prop_other data _ "action" "message" Hp) as [message Hm].
    destruct (isSet message) eqn:Hs.
    - rewrite (sendChat_broadcast s client data message Hm Hs), broadcast_chat.
      discriminate.
    - assert (H : sendChat client data s = replied s client "message is missing")
        by (unfold sendChat; run; rewrite Hm; simpl; rewrite Hs; reflexivity).
      rewrite H. discriminate. }
  destruct (String.eqb_spec name "changeNickname") as [-> | _].
  { injection Hf as <-.
    destruct (prop_other data _ "action" "nickname" Hp) as [nick Hn].
    destruct (isSet nick) eqn:Hs.
    - rewrite (changeNickname_pass s client data nick Hn Hs). discriminate.
    - rewrite (changeNickname_unnamed s client data nick Hn Hs). discriminate. }
  discriminate.
Qed.

Section Throws.

Variable isJSON : string -> bool.
Variable JSON_parse : string -> outcome value.

(** X18.  The only requests on which the message handler throws: the text
    passes [isJSON] and then either [JSON.parse] itself throws, or the
    parsed value is null or undefined (its [action] cannot be read; nothing
    has been sent or changed), or it is a joinChat by a non-member with a
    set nickname that has no text form (the welcome cannot be built).
    Every other request returns normally. *)
Theorem wsMessage_throws (s : state) (client : conn) (raw : string) (e : exn) :
  snd (wsMessage isJSON JSON_parse (Request raw client) s) = Throw e ->
  isJSON raw = true
  /\ (JSON_parse raw = Throw e
      \/ exists data,
           JSON_parse raw = Normal data
           /\ e = TypeError
           /\ (((data = VNull \/ data = VUndef)
                /\ fst (wsMessage isJSON JSON_parse (Request raw client) s) = s)
               \/ (prop data "action" = Normal (VStr "joinChat")
                   /\ (client ∉ clients s)
                   /\ exists nick, prop data "nickname" = Normal nick
                                   /\ isSet nick = true /\ ToString nick = None))).
Proof.
  unfold wsMessage. simpl.
  destruct (isJSON raw); [ | discriminate ].
  run. destruct (JSON_parse raw) as [data | e'] eqn:Hd; simpl.
  - intros H. split; [ reflexivity | ]. right. exists data. split; [ reflexivity | ].
    revert H. unfold incomingMessage. run.
    destruct (prop data "action") as [action | e'] eqn:Hp; simpl.
    + destruct (isSet action); simpl; [ | discriminate ].
      destruct (wsFunctionsMap_get action) as [f | ] eqn:Hf; simpl; [ | discriminate ].
      intros H. destruct (handler_throws s client data action f e Hp Hf H)
        as (-> & -> & Hc & Hn).
      split; [ reflexivity | ]. right. auto.
    + intros [= <-]. destruct data; simpl in Hp; try discriminate;
        injection Hp as <-; (split; [ reflexivity | left; split; auto ]).
  - intros [= <-]. split; [ reflexivity | left; reflexivity ].
Qed.

End Throws.

Lemma wsMessage_throws_witness :
  snd (wsMessage null_isJSON null_parse (Request "null" 1) two_open) = Throw TypeError
  /\ null_isJSON "null" = true.
Proof.
  assert (H : snd (wsMessage null_isJSON null_parse (Request "null" 1) two_open)
              = Throw TypeError) by reflexivity.
  split; [ exact H | ].
  apply (wsMessage_throws null_isJSON null_parse two_open 1 "null" TypeError H).
Defined.

Lemma perform_nicknames_witness :
  nickname (fst (perform (OpRename 1 bob_joins) two_open)) !! 1 <> nickname two_open !! 1
  /\ isSet (client_nickname (fst (perform (OpRename 1 bob_joins) two_open)) 1) = true.
Proof.
  assert (H : nickname (fst (perform (OpRename 1 bob_joins) two_open)) !! 1
              <> nickname two_open !! 1) by (vm_compute; discriminate).
  split; [ exact H | ].
  apply (proj1 (proj2 (perform_nicknames (OpRename 1 bob_joins) two_open 1)) H).
Defined.

(** ** The order of the registry *)

(** X19.  The registry keeps the order in which its members joined: after
    any operation it is the registry before with some members taken out
    and nothing moved, followed - only when the operation is a [joinChat]
    that passes both checks - by the joining connection at the end.  So a
    registry never grows by more than one connection at a time. *)
Theorem perform_order (op : operation) (s : state) :
  exists l,
    l `sublist_of` clients s
    /\ (clients (fst (perform op s)) = l
        \/ exists client,
             joins op s client /\ clients (fst (perform op s)) = l ++ [client])
    /\ length (clients (fst (perform op s))) <= S (length (clients s)).
Proof.
  assert (Hs : forall l, l `sublist_of` clients s -> length l <= S (length (clients s))).
  { intros l Hl. apply sublist_length in Hl. lia. }
  assert (Hleave : forall client,
            clients (fst (leaveChat client s)) `sublist_of` clients s).
  { intros client. destruct (indexOf client (clients s)) as [i | ] eqn:E.
    - rewrite (leaveChat_member s client i E).
      etransitivity; [ | apply (sublist_delete (clients s) i) ].
      apply (broadcast_evicts _ (with_clients (delete i (clients s)) s)).
    - apply indexOf_None in E. rewrite (leaveChat_absent s client E). reflexivity. }
  destruct op as [client data | client | client data | client data | data | client];
    simpl perform.
  - destruct (joinChat_registry s client data) as [-> | [Hj (l & [Hl _] & ->)]].
    + exists (clients s). split; [ reflexivity | ]. split; [ left; reflexivity | lia ].
    + exists l. split; [ exact Hl | ]. split; [ right; exists client; auto | ].
      rewrite length_app. simpl. apply sublist_length in Hl. lia.
  - eexists. split; [ apply (Hleave client) | ]. split; [ left; reflexivity | ].
    apply Hs, Hleave.
  - eexists. split; [ apply (sendChat_registry s client data) | ].
    split; [ left; reflexivity | ]. apply Hs, (sendChat_registry s client data).
  - eexists. split; [ apply (changeNickname_registry s client data) | ].
    split; [ left; reflexivity | ]. apply Hs, (changeNickname_registry s client data).
  - eexists. split; [ apply (broadcast_evicts data s) | ].
    split; [ left; reflexivity | ]. apply Hs, (broadcast_evicts data s).
  - eexists. split; [ apply (Hleave client) | ]. split; [ left; reflexivity | ].
    apply Hs, Hleave.
Qed.
